(** * An explicit-free-list allocator (malloc.c), embedded and verified

    The development follows [malloc.c]: the tag macros, the heap bootstrap
    and growth, the free list ([add_free], [fb_patching]), placement
    ([find_fit], [handle_malloc]) and coalescing ([handle_free]).

    Machine model.  The allocator stores its list links in 4-byte words
    ([WSIZE] is "the same as that of the header, footer, fwrd, bwrd
    pointers"), so pointers, [unsigned int] and [size_t] are all 32 bits
    wide.  Values of these types are integers in [0, 2^32); every [size_t]
    addition, subtraction and multiplication is reduced modulo 2^32
    ([wrap]).  Addresses are byte addresses; memory is read and written one
    aligned 4-byte word at a time, so it is a map from the address of a word
    to the word stored there (on a region that starts 8-aligned every
    address the allocator forms in a well-formed heap is a multiple of 4).
    The contents of memory that was never written are whatever the initial
    map says.

    Loops.  The only loop is the list search of [find_fit]; it takes a
    number of iterations as fuel and returns nothing when the fuel runs
    out.  On a well-formed heap two iterations always suffice
    ([find_fit_total], [mm_malloc_total]).

    Contents.  The embedding of malloc.c and the observers used to state
    properties; tag words; the free list and the bootstrap as written; the
    growth request; call sequences that break the intended invariants; the
    well-formedness invariant and its preservation by [handle_free],
    [mm_free], [handle_malloc], [extend_heap] and [mm_malloc]; the results
    on placement, coalescing and call sequences. *)

From Stdlib Require Import ZArith List Lia Bool.
Import ListNotations.
Local Open Scope Z_scope.

(** ** Constants and tag macros *)

Definition WSIZE : Z := 4.
Definition DSIZE : Z := 8.
Definition DEFAULT_CHUNKSIZE : Z := 4096.
Definition NULL : Z := 0.

(** Reduction of a [size_t] / [unsigned int] result to 32 bits. *)
Definition wrap (z : Z) : Z := z mod 2 ^ 32.

Definition MAX (x y : Z) : Z := if x >? y then x else y.

Definition PACK (size alloc : Z) : Z := Z.lor size alloc.

(** ** The heap: memory, the growth primitive's break, and the list root *)

Record heap : Type := mkHeap {
  mem : Z -> Z;            (* word stored at each word address *)
  mem_heap_lo : Z;         (* first byte of the managed region *)
  mem_brk : Z;             (* first byte after the managed region *)
  mem_max_addr : Z;        (* the region may not grow past this address *)
  FREE_LIST_ROOT : Z       (* static void* FREE_LIST_ROOT *)
}.

Definition set_mem (s : heap) (m : Z -> Z) : heap :=
  mkHeap m (mem_heap_lo s) (mem_brk s) (mem_max_addr s) (FREE_LIST_ROOT s).

Definition set_root (s : heap) (r : Z) : heap :=
  mkHeap (mem s) (mem_heap_lo s) (mem_brk s) (mem_max_addr s) r.

(** [READ(p)] and [WRITE(p, val)]: one [unsigned int] at address [p]. *)
Definition READ (s : heap) (p : Z) : Z := wrap (mem s p).

Definition WRITE (p val : Z) (s : heap) : heap :=
  set_mem s (fun a => if a =? p then wrap val else mem s a).

(** [~0x7] converted to [unsigned int] is [0xFFFFFFF8]. *)
Definition GET_SIZE (s : heap) (mp : Z) : Z := Z.land (READ s mp) 0xFFFFFFF8.
Definition GET_ALLOC (s : heap) (mp : Z) : Z := Z.land (READ s mp) 0x1.

Definition NEXTP (bp : Z) : Z := bp.
Definition PREVP (bp : Z) : Z := bp + WSIZE.

Definition HDRP (bp : Z) : Z := bp - WSIZE.
Definition FTRP (s : heap) (bp : Z) : Z := bp + GET_SIZE s (HDRP bp) - DSIZE.

Definition NEXT_BLKP (s : heap) (bp : Z) : Z := bp + GET_SIZE s (bp - WSIZE).
Definition PREV_BLKP (s : heap) (bp : Z) : Z := bp - GET_SIZE s (bp - DSIZE).

(** Modelled from the spec: [mem_sbrk], the heap-growth primitive, which is
    called by malloc.c but defined elsewhere.  Following the spec's
    [growHeap(byteCount)], it extends the managed region by exactly [incr]
    bytes and returns the address immediately following the previous end of
    the region, or fails ([None], the sentinel [(void* ) -1]) when no more
    space is available; a failed call changes nothing. *)
Definition mem_sbrk (incr : Z) (s : heap) : option (Z * heap) :=
  if mem_max_addr s <? mem_brk s + incr then None
  else Some (mem_brk s,
             mkHeap (mem s) (mem_heap_lo s) (mem_brk s + incr)
                    (mem_max_addr s) (FREE_LIST_ROOT s)).

(** ** The free list *)

(** [add_free(bp, &FREE_LIST_ROOT)] *)
Definition add_free (bp : Z) (s : heap) : heap :=
  let s := WRITE (PREVP bp) NULL s in
  let s :=
    if negb (FREE_LIST_ROOT s =? NULL) then
      let root_next := READ s (NEXTP (FREE_LIST_ROOT s)) in
      let s := if negb (root_next =? NULL)
               then WRITE (PREVP root_next) bp s else s in
      WRITE (NEXTP bp) root_next s
    else
      WRITE (NEXTP bp) NULL s in
  set_root s bp.

(** [fb_patching(bp, &FREE_LIST_ROOT)] *)
Definition fb_patching (bp : Z) (s : heap) : heap :=
  let bp_prev := READ s (PREVP bp) in
  let bp_next := READ s (NEXTP bp) in
  let s := if negb (bp_prev =? NULL)
           then WRITE (NEXTP bp_prev) bp_next s
           else set_root s bp_next in
  if negb (bp_next =? NULL) then WRITE (PREVP bp_next) bp_prev s else s.

(** ** Coalescing *)

Definition handle_free (bp : Z) (s : heap) : Z * heap :=
  let prev_block := PREV_BLKP s bp in
  let next_block := NEXT_BLKP s bp in
  let prev_alloc := GET_ALLOC s (FTRP s prev_block) in
  let next_alloc := GET_ALLOC s (HDRP next_block) in
  let size := GET_SIZE s (HDRP bp) in
  let '(bp, s) :=
    if negb (prev_alloc =? 0) && negb (next_alloc =? 0) then
      (bp, s)
    else if negb (prev_alloc =? 0) && (next_alloc =? 0) then
      let s := fb_patching next_block s in
      let size := wrap (size + GET_SIZE s (HDRP next_block)) in
      let s := WRITE (HDRP bp) (PACK size 0) s in
      let s := WRITE (FTRP s next_block) (PACK size 0) s in
      (bp, s)
    else if (prev_alloc =? 0) && negb (next_alloc =? 0) then
      let s := fb_patching prev_block s in
      let size := wrap (size + GET_SIZE s (HDRP prev_block)) in
      let s := WRITE (HDRP prev_block) (PACK size 0) s in
      let s := WRITE (FTRP s bp) (PACK size 0) s in
      (prev_block, s)
    else
      let s := fb_patching prev_block s in
      let s := fb_patching next_block s in
      let size := wrap (wrap (size + GET_SIZE s (HDRP prev_block))
                        + GET_SIZE s (HDRP next_block)) in
      let s := WRITE (HDRP prev_block) (PACK size 0) s in
      let s := WRITE (FTRP s next_block) (PACK size 0) s in
      (prev_block, s) in
  let s := add_free bp s in
  (bp, s).

Definition mm_free (bp : Z) (s : heap) : heap :=
  let size := GET_SIZE s (HDRP bp) in
  let s := WRITE (HDRP bp) (PACK size 0) s in
  let s := WRITE (FTRP s bp) (PACK size 0) s in
  snd (handle_free bp s).

(** ** Bootstrap and growth *)

(** [mm_init]: returns [-1] when the primitive fails and [0] otherwise. *)
Definition mm_init (s : heap) : Z * heap :=
  match mem_sbrk (4 * WSIZE) s with
  | None => (-1, s)
  | Some (heap_listp, s) =>
      let s := WRITE heap_listp 0 s in
      let s := WRITE (heap_listp + 1 * WSIZE) (PACK DSIZE 1) s in
      let s := WRITE (heap_listp + 2 * WSIZE) (PACK DSIZE 1) s in
      let s := WRITE (heap_listp + 3 * WSIZE) (PACK 0 1) s in
      (0, s)
  end.

Definition extend_heap (words : Z) (s : heap) : Z * heap :=
  let size := if negb (words mod 2 =? 0)
              then wrap ((words + 1) * WSIZE) else wrap (words * WSIZE) in
  match mem_sbrk size s with
  | None => (NULL, s)
  | Some (bp, s) =>
      let s := WRITE (HDRP bp) (PACK size 0) s in
      let s := WRITE (FTRP s bp) (PACK size 0) s in
      let s := WRITE (HDRP (NEXT_BLKP s bp)) (PACK 0 1) s in
      handle_free bp s
  end.

(** ** Allocation *)

(** The [while] loop of [find_fit], from [curr_free]; [None] when [fuel]
    iterations did not reach the end of the loop. *)
Fixpoint find_fit_loop (fuel : nat) (s : heap) (asize curr_free : Z)
  : option Z :=
  match fuel with
  | O => None
  | S fuel =>
      if negb (curr_free =? NULL) then
        let cf_size := GET_SIZE s (HDRP curr_free) in
        if cf_size <? asize
        then find_fit_loop fuel s asize (READ s (NEXTP curr_free))
        else Some curr_free
      else Some curr_free
  end.

Definition find_fit (fuel : nat) (asize : Z) (s : heap) : option Z :=
  find_fit_loop fuel s asize (FREE_LIST_ROOT s).

Definition handle_malloc (bp asize : Z) (s : heap) : heap :=
  let cf_size := GET_SIZE s (HDRP bp) in
  let rem_size := wrap (cf_size - asize) in
  let s := fb_patching bp s in
  if rem_size <? DSIZE * 2 then
    let s := WRITE (HDRP bp) (PACK cf_size 1) s in
    WRITE (FTRP s bp) (PACK cf_size 1) s
  else
    let s := WRITE (HDRP bp) (PACK asize 1) s in
    let s := WRITE (FTRP s bp) (PACK asize 1) s in
    let new_free := NEXT_BLKP s bp in
    let s := WRITE (HDRP new_free) (PACK rem_size 0) s in
    let s := WRITE (FTRP s new_free) (PACK rem_size 0) s in
    add_free new_free s.

(** The adjusted block size computed at the start of [mm_malloc]. *)
Definition adjusted_size (size : Z) : Z :=
  if size <=? DSIZE then 2 * DSIZE
  else wrap (wrap (size + DSIZE + (DSIZE - 1)) / DSIZE * DSIZE).

(** [mm_malloc]; the result is [None] only when the list search ran out of
    [fuel]. *)
Definition mm_malloc (fuel : nat) (size : Z) (s : heap) : option (Z * heap) :=
  if size =? 0 then Some (NULL, s)
  else
    let asize := adjusted_size size in
    match find_fit fuel asize s with
    | None => None
    | Some bp =>
        if negb (bp =? NULL) then
          Some (bp, handle_malloc bp asize s)
        else
          let extend_size := MAX asize DEFAULT_CHUNKSIZE in
          let '(bp, s) := extend_heap (extend_size / WSIZE) s in
          if bp =? NULL then Some (NULL, s)
          else Some (bp, handle_malloc bp asize s)
    end.

(** [mm_realloc]: the body is empty ("TBD"), so no statement runs, the heap
    is left as it is and no value is returned ([None]). *)
Definition mm_realloc (ptr size : Z) (s : heap) : option Z * heap :=
  (None, s).

(** ** Observing a heap

    The claims speak of an address-order walk of the heap and of the blocks
    reachable from the list root.  Both are computed here from the tags and
    links in memory, the way a heap checker would. *)

(** Payload address of the first block after the prologue. *)
Definition first_block (s : heap) : Z := mem_heap_lo s + 4 * WSIZE.

(** Address-order walk from [bp]: every block up to the first header whose
    size field is 0 (the epilogue), as [(bp, size, alloc)]. *)
Fixpoint heap_walk (fuel : nat) (s : heap) (bp : Z) : list (Z * Z * Z) :=
  match fuel with
  | O => []
  | S fuel =>
      let size := GET_SIZE s (HDRP bp) in
      if size =? 0 then []
      else (bp, size, GET_ALLOC s (HDRP bp)) :: heap_walk fuel s (NEXT_BLKP s bp)
  end.

(** Blocks reachable from [curr] through the next-links; [None] when the
    chain has more than [fuel] links (as a cyclic one has). *)
Fixpoint list_walk (fuel : nat) (s : heap) (curr : Z) : option (list Z) :=
  match fuel with
  | O => None
  | S fuel =>
      if curr =? NULL then Some []
      else option_map (cons curr) (list_walk fuel s (READ s (NEXTP curr)))
  end.

Definition free_list (fuel : nat) (s : heap) : option (list Z) :=
  list_walk fuel s (FREE_LIST_ROOT s).

(** The blocks of a walk whose allocation bit is 0. *)
Definition free_blocks (w : list (Z * Z * Z)) : list Z :=
  map (fun b => fst (fst b)) (filter (fun b => snd b =? 0) w).

(** Two consecutive blocks of a walk are both free. *)
Fixpoint adjacent_free (w : list (Z * Z * Z)) : bool :=
  match w with
  | (_, _, a1) :: (((_, _, a2) :: _) as rest) =>
      ((a1 =? 0) && (a2 =? 0)) || adjacent_free rest
  | _ => false
  end.

(** ** Client calls

    A client calls [mm_malloc] with any size and [mm_free] with a pointer
    that an earlier [mm_malloc] returned and that was not freed since. *)

Inductive call : Type :=
| Malloc (size : Z)
| Free (bp : Z).

(** The heap and the pointers the client holds. *)
Definition client : Type := (heap * list Z)%type.

Fixpoint remove_first (p : Z) (l : list Z) : list Z :=
  match l with
  | [] => []
  | q :: l => if q =? p then l else q :: remove_first p l
  end.

Fixpoint memZ (p : Z) (l : list Z) : bool :=
  match l with
  | [] => false
  | q :: l => (q =? p) || memZ p l
  end.

(** One call; [None] when the call is not allowed (a pointer the client
    does not hold) or the list search ran out of fuel. *)
Definition do_call (fuel : nat) (c : call) (st : client) : option client :=
  let '(s, live) := st in
  match c with
  | Malloc size =>
      match mm_malloc fuel size s with
      | None => None
      | Some (p, s') => Some (s', if p =? NULL then live else p :: live)
      end
  | Free bp =>
      if memZ bp live then Some (mm_free bp s, remove_first bp live) else None
  end.

Fixpoint do_calls (fuel : nat) (cs : list call) (st : client) : option client :=
  match cs with
  | [] => Some st
  | c :: cs =>
      match do_call fuel c st with
      | None => None
      | Some st => do_calls fuel cs st
      end
  end.

(** A heap before [mm_init]: nothing managed yet, the root is [NULL] (its
    static initialiser) and memory holds zeroes. *)
Definition fresh_heap (lo max : Z) : heap :=
  mkHeap (fun _ => 0) lo lo max NULL.


(** The heap right after a successful [mm_init] on a fresh region. *)
Definition init_heap (lo max : Z) : heap := snd (mm_init (fresh_heap lo max)).

(** The state [mm_init; mm_malloc(8); mm_malloc(8)] leaves on a fresh region
    at 4096: blocks 4112 and 4128 allocated, the free list holding the
    single block 4144.  This is the state in which [mm_free(4112)] calls
    [add_free(4112)]. *)
Definition two_allocations : option client :=
  do_calls 2 [Malloc 8; Malloc 8] (init_heap 4096 16384, []).

(** The break moves only in [mem_sbrk]. *)
Definition same_region (s s' : heap) : Prop :=
  mem_heap_lo s' = mem_heap_lo s /\ mem_brk s' = mem_brk s /\
  mem_max_addr s' = mem_max_addr s.

(** The heap after the calls [cs] on a freshly initialised region at 4096
    (used for examples). *)
Definition heap_after (cs : list call) : heap :=
  match do_calls 2 cs (init_heap 4096 16384, []) with
  | Some (s, _) => s
  | None => init_heap 4096 16384
  end.

(** ** The block structure of a well-formed heap

    A heap is described by the sequence of its blocks in address order, each
    given as [(bp, size, alloc)], the shape [heap_walk] returns.  The
    predicates below say when memory holds such a sequence. *)

Abbreviation block := (Z * Z * Z)%type (only parsing).

Definition blk_bp (b : block) : Z := fst (fst b).
Definition blk_size (b : block) : Z := snd (fst b).
Definition blk_alloc (b : block) : Z := snd b.

(** The block at [bp] carries the tag [(size, a)] in its header and footer,
    is at least a minimum block, and, when free, has both link words null.
    (With [add_free] as written the list never holds more than its root, so
    the links of a free block are always null.) *)
Definition block_ok (s : heap) (bp size a : Z) : Prop :=
  2 * DSIZE <= size /\ size mod DSIZE = 0 /\ (a = 0 \/ a = 1) /\
  READ s (HDRP bp) = PACK size a /\
  READ s (bp + size - DSIZE) = PACK size a /\
  (a = 0 -> READ s (NEXTP bp) = NULL /\ READ s (PREVP bp) = NULL).

(** The blocks [w] tile memory from the block at [bp] up to the block
    pointer [e]. *)
Fixpoint blocks_at (s : heap) (bp : Z) (w : list block) (e : Z) : Prop :=
  match w with
  | [] => bp = e
  | (p, size, a) :: w =>
      p = bp /\ block_ok s bp size a /\ blocks_at s (bp + size) w e
  end.

(** The neighbour found at either end of the block sequence is a sentinel
    (prologue or epilogue), which is allocated. *)
Definition sentinel : block := (0, 0, 1).

(** A well-formed heap with blocks [w]: the region starts 8-aligned and
    stays below 2^32; it holds the prologue, the blocks [w] and the epilogue
    header; the list root is null or one of the free blocks. *)
Record heap_ok (s : heap) (w : list block) : Prop := mkHeapOk {
  ok_lo : 0 <= mem_heap_lo s /\ mem_heap_lo s mod DSIZE = 0;
  ok_max : mem_brk s <= mem_max_addr s /\ mem_max_addr s < 2 ^ 32;
  ok_prologue :
    READ s (mem_heap_lo s + 1 * WSIZE) = PACK DSIZE 1 /\
    READ s (mem_heap_lo s + 2 * WSIZE) = PACK DSIZE 1;
  ok_blocks : blocks_at s (first_block s) w (mem_brk s);
  ok_epilogue : READ s (HDRP (mem_brk s)) = PACK 0 1;
  ok_root :
    FREE_LIST_ROOT s = NULL \/
    exists size, In (FREE_LIST_ROOT s, size, 0) w
}.

(** No two consecutive blocks of [w] are free. *)
Definition coalesced (w : list block) : Prop := adjacent_free w = false.

(** What freeing does to the block sequence: the block [(bp, size)] between
    [w1] and [w2] becomes free and absorbs the block before it and the block
    after it when they are free (the four cases of [handle_free]).  At the
    ends of the heap the neighbours are the sentinels, which are allocated. *)
Definition coalesce (w1 : list block) (bp size : Z) (w2 : list block)
  : list block :=
  let prev := last w1 sentinel in
  let next := hd sentinel w2 in
  if negb (blk_alloc prev =? 0) && negb (blk_alloc next =? 0) then
    w1 ++ (bp, size, 0) :: w2
  else if negb (blk_alloc prev =? 0) && (blk_alloc next =? 0) then
    w1 ++ (bp, size + blk_size next, 0) :: tl w2
  else if (blk_alloc prev =? 0) && negb (blk_alloc next =? 0) then
    removelast w1 ++ (blk_bp prev, size + blk_size prev, 0) :: w2
  else
    removelast w1 ++
      (blk_bp prev, size + blk_size prev + blk_size next, 0) :: tl w2.

(** What placement does to the block sequence: the free block
    [(bp, cf_size)] is allocated whole, or split into an allocated block of
    [asize] bytes and a free remainder (the two branches of
    [handle_malloc]). *)
Definition place (bp cf_size asize : Z) : list block :=
  if cf_size - asize <? DSIZE * 2 then [(bp, cf_size, 1)]
  else [(bp, asize, 1); (bp + asize, cf_size - asize, 0)].

(** The request sizes for which the adjusted size does not wrap around. *)
Definition size_ok (size : Z) : Prop := 0 <= size <= 2 ^ 32 - 2 * DSIZE.

(** A call whose size does not wrap. *)
Definition call_ok (c : call) : Prop :=
  match c with
  | Malloc size => size_ok size
  | Free _ => True
  end.

(** The state in which [handle_free(bp)] is called: the heap is well formed
    except that the block at [bp], between the blocks [w1] and [w2], has
    free tags but is not yet on the list and its link words hold
    anything. *)
Record pending_free (s : heap) (w1 : list block) (bp size : Z)
  (w2 : list block) : Prop := mkPendingFree {
  pf_lo : 0 <= mem_heap_lo s /\ mem_heap_lo s mod DSIZE = 0;
  pf_max : mem_brk s <= mem_max_addr s /\ mem_max_addr s < 2 ^ 32;
  pf_prologue :
    READ s (mem_heap_lo s + 1 * WSIZE) = PACK DSIZE 1 /\
    READ s (mem_heap_lo s + 2 * WSIZE) = PACK DSIZE 1;
  pf_before : blocks_at s (first_block s) w1 bp;
  pf_size : 2 * DSIZE <= size /\ size mod DSIZE = 0;
  pf_tags :
    READ s (HDRP bp) = PACK size 0 /\ READ s (bp + size - DSIZE) = PACK size 0;
  pf_after : blocks_at s (bp + size) w2 (mem_brk s);
  pf_epilogue : READ s (HDRP (mem_brk s)) = PACK 0 1;
  pf_root :
    FREE_LIST_ROOT s = NULL \/
    exists rsize, In (FREE_LIST_ROOT s, rsize, 0) (w1 ++ w2)
}.

(** The block's allocation bit is 0. *)
Definition is_free (b : block) : bool := blk_alloc b =? 0.

(** A region on which [mm_init] has not run yet: nothing is managed, the
    root is [NULL], and the region is 8-aligned and below 2^32.  Memory
    holds anything. *)
Definition fresh (s : heap) : Prop :=
  FREE_LIST_ROOT s = NULL /\ mem_brk s = mem_heap_lo s /\
  0 <= mem_heap_lo s /\ mem_heap_lo s mod DSIZE = 0 /\
  mem_max_addr s < 2 ^ 32.

(** The heap is well formed and coalesced, and the client holds pointers to
    allocated blocks, each once. *)
Definition client_ok (st : client) : Prop :=
  exists w,
    heap_ok (fst st) w /\ coalesced w /\ NoDup (snd st) /\
    forall p, In p (snd st) -> exists size, In (p, size, 1) w.

(** ** The free list as a doubly linked chain

    [fb_patching] and [add_free] work on any doubly linked list, whatever
    its length.  The blocks [l] are chained in memory between the
    predecessor [prev] and the successor [next]: each block is non-null,
    its prev-link is the block before it and its next-link the block after
    it. *)
Fixpoint chain (s : heap) (prev : Z) (l : list Z) (next : Z) : Prop :=
  match l with
  | [] => True
  | b :: l' =>
      b <> NULL /\ READ s (PREVP b) = prev /\ READ s (NEXTP b) = hd next l' /\
      chain s b l' next
  end.

(** The free list of [s] is [l]: the root is its first block (or null) and
    the blocks are chained from null to null. *)
Definition free_list_is (s : heap) (l : list Z) : Prop :=
  FREE_LIST_ROOT s = hd NULL l /\ chain s NULL l NULL.

(** The blocks are distinct and 8-aligned, so their link words do not
    overlap. *)
Definition separate (l : list Z) : Prop :=
  NoDup l /\ Forall (fun b => b mod DSIZE = 0) l.

(** A hand-built heap whose free list is [4112; 4144; 4176], with block
    sizes 16, 32 and 64 (used for examples: the allocator itself never
    builds a list of more than one block). *)
Definition three_free_blocks : heap :=
  set_root
    (WRITE 4180 4144 (WRITE 4148 4112
    (WRITE 4144 4176 (WRITE 4112 4144
    (WRITE 4172 (PACK 64 0) (WRITE 4140 (PACK 32 0) (WRITE 4108 (PACK 16 0)
    (fresh_heap 4096 8192))))))))
    4112.

(** * Tag words *)

(** Linear arithmetic with division and remainder by constants. *)
Ltac dlia := Z.to_euclidean_division_equations; lia.

(** Expose the address arithmetic behind the macros. *)
Ltac unfold_macros :=
  unfold block_ok, first_block, HDRP, NEXTP, PREVP, NULL, DSIZE, WSIZE in *.

Section Tags.

Lemma wrap_small z : 0 <= z < 2 ^ 32 -> wrap z = z.
Proof. intros H. unfold wrap. apply Z.mod_small. exact H. Qed.

Lemma wrap_range z : 0 <= wrap z < 2 ^ 32.
Proof. unfold wrap. apply Z.mod_pos_bound. reflexivity. Qed.

Lemma mask_bits n :
  0 <= n -> Z.testbit 0xFFFFFFF8 n = (3 <=? n) && (n <? 32).
Proof.
  intros Hn. change 0xFFFFFFF8 with (Z.shiftl (Z.ones 29) 3).
  destruct (Z.ltb_spec n 3) as [Hlt|Hge].
  - rewrite Z.shiftl_spec_low by lia.
    destruct (Z.leb_spec 3 n); [lia|reflexivity].
  - rewrite Z.shiftl_spec by lia.
    destruct (Z.leb_spec 3 n); [|lia]. cbn [andb].
    destruct (Z.ltb_spec n 32).
    + apply Z.ones_spec_low. lia.
    + apply Z.ones_spec_high. lia.
Qed.

Lemma high_bits w n : 0 <= w < 2 ^ 32 -> 32 <= n -> Z.testbit w n = false.
Proof.
  intros Hw Hn. destruct (Z.eq_dec w 0) as [->|Hz].
  - apply Z.bits_0.
  - apply Z.bits_above_log2; [lia|].
    assert (Z.log2 w < 32) by (apply Z.log2_lt_pow2; lia). lia.
Qed.

(** Masking with [~0x7] clears the three low bits of a 32-bit word. *)
Lemma land_size_mask w :
  0 <= w < 2 ^ 32 -> Z.land w 0xFFFFFFF8 = 8 * (w / 8).
Proof.
  intros Hw. replace (8 * (w / 8)) with (Z.shiftl (Z.shiftr w 3) 3).
  2:{ rewrite Z.shiftl_mul_pow2, Z.shiftr_div_pow2 by lia.
      change (2 ^ 3) with 8. lia. }
  apply Z.bits_inj'. intros n Hn.
  rewrite Z.land_spec, mask_bits by exact Hn.
  destruct (Z.leb_spec 3 n) as [H3|H3]; cbn [andb].
  - rewrite Z.shiftl_spec, Z.shiftr_spec by lia.
    replace (n - 3 + 3) with n by lia.
    destruct (Z.ltb_spec n 32).
    + apply andb_true_r.
    + rewrite high_bits by (assumption || lia). reflexivity.
  - rewrite Z.shiftl_spec_low by lia. apply andb_false_r.
Qed.

Lemma land_alloc_mask w : Z.land w 0x1 = w mod 2.
Proof. change 0x1 with (Z.ones 1). rewrite Z.land_ones by lia. reflexivity. Qed.

(** On a size that is a multiple of 8, or-ing in the flag adds it. *)
Lemma PACK_add size a :
  size mod 8 = 0 -> a = 0 \/ a = 1 -> PACK size a = size + a.
Proof.
  intros Hs [->| ->]; unfold PACK.
  - rewrite Z.lor_0_r. lia.
  - assert (Z.land size 1 = 0) as Hl by (rewrite land_alloc_mask; dlia).
    rewrite <- Z.lxor_lor by exact Hl. symmetry.
    apply Z.add_nocarry_lxor. exact Hl.
Qed.

Lemma GET_SIZE_div s p : GET_SIZE s p = 8 * (READ s p / 8).
Proof. unfold GET_SIZE. apply land_size_mask. apply wrap_range. Qed.

Lemma GET_ALLOC_mod s p : GET_ALLOC s p = READ s p mod 2.
Proof. unfold GET_ALLOC. apply land_alloc_mask. Qed.

Lemma READ_WRITE_same p v s : READ (WRITE p v s) p = wrap v.
Proof.
  unfold READ, WRITE. cbn [mem set_mem]. rewrite Z.eqb_refl.
  apply wrap_small, wrap_range.
Qed.

Lemma READ_WRITE_other p q v s : q <> p -> READ (WRITE p v s) q = READ s q.
Proof.
  intros H. unfold READ, WRITE. cbn [mem set_mem].
  destruct (Z.eqb_spec q p); [contradiction|reflexivity].
Qed.

(** A word holding [PACK size a] decodes to [size] and [a]. *)
Lemma tag_decode s p size a :
  0 <= size < 2 ^ 32 -> size mod 8 = 0 -> a = 0 \/ a = 1 ->
  READ s p = PACK size a ->
  GET_SIZE s p = size /\ GET_ALLOC s p = a.
Proof.
  intros Hr Hm Ha Hp. rewrite GET_SIZE_div, GET_ALLOC_mod, Hp, PACK_add by assumption.
  destruct Ha as [->| ->]; dlia.
Qed.

(** C10.  For every size that is a multiple of 8 and fits a 32-bit tag
    word, and every allocation bit [a] in {0, 1}, the tag [PACK(size, a)],
    once stored in a header or footer word, decodes to both fields:
    [GET_SIZE] gives back [size] and [GET_ALLOC] gives back [a]. *)
Theorem PACK_roundtrip : forall size a mp s,
  0 <= size < 2 ^ 32 -> size mod 8 = 0 -> a = 0 \/ a = 1 ->
  GET_SIZE (WRITE mp (PACK size a) s) mp = size /\
  GET_ALLOC (WRITE mp (PACK size a) s) mp = a.
Proof.
  intros size a mp s Hr Hm Ha. apply tag_decode; try assumption.
  rewrite READ_WRITE_same. apply wrap_small.
  rewrite PACK_add by assumption. destruct Ha as [->| ->]; dlia.
Qed.

Lemma PACK_roundtrip_witness :
  GET_SIZE (WRITE 4108 (PACK 24 1) (fresh_heap 4096 8192)) 4108 = 24 /\
  GET_ALLOC (WRITE 4108 (PACK 24 1) (fresh_heap 4096 8192)) 4108 = 1.
Proof.
  apply (PACK_roundtrip 24 1 4108 (fresh_heap 4096 8192)).
  - lia.
  - reflexivity.
  - right. reflexivity.
Defined.

End Tags.

(** * Reads after writes *)

Section Memory.

Lemma READ_WRITE p q v s :
  READ (WRITE p v s) q = if q =? p then wrap v else READ s q.
Proof.
  destruct (Z.eqb_spec q p) as [->|H].
  - apply READ_WRITE_same.
  - apply READ_WRITE_other. exact H.
Qed.

Lemma READ_set_root s r p : READ (set_root s r) p = READ s p.
Proof. reflexivity. Qed.

Lemma GET_SIZE_eq s s' p : READ s' p = READ s p -> GET_SIZE s' p = GET_SIZE s p.
Proof. intros H. unfold GET_SIZE. rewrite H. reflexivity. Qed.

Lemma wrap_PACK size a :
  0 <= size < 2 ^ 32 -> size mod 8 = 0 -> a = 0 \/ a = 1 ->
  wrap (PACK size a) = PACK size a.
Proof.
  intros Hr Hm Ha. apply wrap_small. rewrite PACK_add by assumption.
  destruct Ha as [->| ->]; dlia.
Qed.

(** With both link words of [bp] null, unlinking [bp] only clears the
    root. *)
Lemma fb_patching_null bp s :
  READ s (PREVP bp) = NULL -> READ s (NEXTP bp) = NULL ->
  fb_patching bp s = set_root s NULL.
Proof. intros Hp Hn. unfold fb_patching. rewrite Hp, Hn. reflexivity. Qed.

(** With an empty list, or a root whose next-link is null, inserting [bp]
    clears both links of [bp] and makes it the root. *)
Lemma add_free_null bp s :
  FREE_LIST_ROOT s = NULL \/
  (FREE_LIST_ROOT s <> PREVP bp /\ READ s (NEXTP (FREE_LIST_ROOT s)) = NULL) ->
  add_free bp s = set_root (WRITE (NEXTP bp) NULL (WRITE (PREVP bp) NULL s)) bp.
Proof.
  intros H. unfold add_free.
  change (FREE_LIST_ROOT (WRITE (PREVP bp) NULL s)) with (FREE_LIST_ROOT s).
  destruct (Z.eqb_spec (FREE_LIST_ROOT s) NULL) as [E|E]; cbn [negb].
  - reflexivity.
  - destruct H as [H|[H1 H2]]; [contradiction|].
    unfold NEXTP in *. rewrite READ_WRITE_other by exact H1. rewrite H2.
    reflexivity.
Qed.

End Memory.

(** Simplify reads of a state built from writes, deciding address
    (in)equalities by linear arithmetic. *)
Ltac reads :=
  repeat first
    [ rewrite READ_set_root
    | rewrite READ_WRITE_same
    | rewrite READ_WRITE_other by lia ].

(** A concrete heap is checked against a block sequence by evaluation. *)
Ltac check_heap :=
  constructor; vm_compute;
  repeat first
    [ split
    | reflexivity
    | (intros; discriminate)
    | (left; reflexivity)
    | (right; reflexivity) ].


(** * The free list as written *)

Section FreeList.

(** C1 (evaluation at the failing input).  With the list holding the single
    block 4144, [add_free(4112)] makes 4112 the root with a null prev-link,
    but its next-link is the old head's next-link (null), not the old head
    4144, and the old head's prev-link stays null instead of pointing at
    4112. *)
Theorem add_free_skips_old_head :
  exists s live,
    two_allocations = Some (s, live) /\
    FREE_LIST_ROOT s = 4144 /\
    READ s (NEXTP 4144) = NULL /\
    let s' := add_free 4112 s in
    FREE_LIST_ROOT s' = 4112 /\
    READ s' (PREVP 4112) = NULL /\
    READ s' (NEXTP 4112) = NULL /\
    READ s' (NEXTP 4112) <> 4144 /\
    READ s' (PREVP 4144) = NULL /\
    READ s' (PREVP 4144) <> 4112.
Proof.
  eexists. eexists. split; [vm_compute; reflexivity|].
  vm_compute. repeat split; discriminate.
Qed.

(** What [add_free] does on a non-empty list, in general: the new root's
    next-link is the next-link of the old head. *)
Lemma add_free_next_link bp s :
  FREE_LIST_ROOT s <> NULL ->
  FREE_LIST_ROOT s <> PREVP bp ->
  FREE_LIST_ROOT (add_free bp s) = bp /\
  READ (add_free bp s) (NEXTP bp) = READ s (NEXTP (FREE_LIST_ROOT s)).
Proof.
  intros Hr Hp. unfold add_free.
  change (FREE_LIST_ROOT (WRITE (PREVP bp) NULL s)) with (FREE_LIST_ROOT s).
  destruct (Z.eqb_spec (FREE_LIST_ROOT s) NULL) as [E|_]; [contradiction|].
  cbn [negb]. split; [reflexivity|].
  rewrite READ_set_root, READ_WRITE_same.
  rewrite (READ_WRITE_other (PREVP bp)) by (unfold NEXTP; exact Hp).
  apply wrap_small. apply wrap_range.
Qed.

End FreeList.

(** * Bootstrap *)

Section Init.

(** C8 (as stated, refuted).  On a fresh region at 4096 with room to grow,
    [mm_init] succeeds, and the prologue header and footer it writes are
    [PACK(8, 1)], not [PACK(16, 1)]. *)
Lemma mm_init_prologue_not_16 :
  fst (mm_init (fresh_heap 4096 8192)) = 0 /\
  READ (init_heap 4096 8192) (4096 + 1 * WSIZE) = PACK 8 1 /\
  READ (init_heap 4096 8192) (4096 + 2 * WSIZE) = PACK 8 1 /\
  READ (init_heap 4096 8192) (4096 + 1 * WSIZE) <> PACK 16 1 /\
  READ (init_heap 4096 8192) (4096 + 2 * WSIZE) <> PACK 16 1.
Proof.
  vm_compute. repeat split; discriminate.
Qed.

(** C8 (amended).  When the growth primitive supplies the initial 4-word
    region at [hp], [mm_init] returns 0 (success) and leaves at [hp] one
    word of padding (0), a prologue header and a prologue footer both equal
    to [PACK(8, 1)], and an epilogue header equal to [PACK(0, 1)]. *)
Theorem mm_init_sentinels : forall s hp s1,
  mem_sbrk (4 * WSIZE) s = Some (hp, s1) ->
  fst (mm_init s) = 0 /\
  let s' := snd (mm_init s) in
  READ s' hp = 0 /\
  READ s' (hp + 1 * WSIZE) = PACK 8 1 /\
  READ s' (hp + 2 * WSIZE) = PACK 8 1 /\
  READ s' (hp + 3 * WSIZE) = PACK 0 1 /\
  mem_brk s' = hp + 4 * WSIZE.
Proof.
  intros s hp s1 H. unfold mm_init. rewrite H. cbn [fst snd].
  split; [reflexivity|]. cbv zeta. unfold WSIZE, DSIZE.
  repeat rewrite READ_WRITE.
  repeat match goal with
         | |- context [?a =? ?b] => destruct (Z.eqb_spec a b); try lia
         end.
  repeat split; try reflexivity.
  unfold mem_sbrk in H. destruct (_ <? _); [discriminate|].
  inversion H. subst. reflexivity.
Qed.

Lemma mm_init_sentinels_witness :
  fst (mm_init (fresh_heap 4096 8192)) = 0 /\
  let s' := snd (mm_init (fresh_heap 4096 8192)) in
  READ s' 4096 = 0 /\
  READ s' (4096 + 1 * WSIZE) = PACK 8 1 /\
  READ s' (4096 + 2 * WSIZE) = PACK 8 1 /\
  READ s' (4096 + 3 * WSIZE) = PACK 0 1 /\
  mem_brk s' = 4096 + 4 * WSIZE.
Proof.
  apply (mm_init_sentinels (fresh_heap 4096 8192) 4096
           (mkHeap (fun _ => 0) 4096 (4096 + 4 * WSIZE) 8192 NULL)).
  reflexivity.
Defined.

End Init.

(** * Resizing *)

Section Realloc.

(** C9 (evaluation at the failing input).  On a freshly initialised heap,
    [mm_malloc(16)] grows the heap and returns the block at 4112, while
    [mm_realloc(NULL, 16)] returns no value and leaves the heap as it
    was. *)
Theorem mm_realloc_null_is_not_malloc :
  let s := init_heap 4096 16384 in
  (exists s', mm_malloc 1 16 s = Some (4112, s') /\
              mem_brk s' = mem_brk s + 4096 /\
              READ s' (HDRP 4112) = PACK 24 1) /\
  mm_realloc NULL 16 s = (None, s).
Proof.
  split.
  - eexists. split; [vm_compute; reflexivity|]. vm_compute. split; reflexivity.
  - reflexivity.
Qed.

End Realloc.

(** * Growth on a miss *)

Section Growth.

Ltac region_cases :=
  cbv zeta;
  repeat match goal with
         | |- context [if ?c then _ else _] => destruct c
         end;
  repeat split.

Lemma same_region_fb_patching bp s : same_region s (fb_patching bp s).
Proof. unfold same_region, fb_patching. region_cases. Qed.

Lemma same_region_add_free bp s : same_region s (add_free bp s).
Proof. unfold same_region, add_free. region_cases. Qed.

Lemma same_region_handle_free bp s : same_region s (snd (handle_free bp s)).
Proof.
  unfold same_region, handle_free, add_free, fb_patching. region_cases.
Qed.

Lemma same_region_handle_malloc bp asize s :
  same_region s (handle_malloc bp asize s).
Proof.
  unfold same_region, handle_malloc, add_free, fb_patching. region_cases.
Qed.

Lemma adjusted_size_range size :
  0 <= adjusted_size size < 2 ^ 32 /\ adjusted_size size mod 8 = 0.
Proof.
  unfold adjusted_size, DSIZE. destruct (size <=? 8).
  - split; [lia|reflexivity].
  - pose proof (wrap_range (size + 8 + (8 - 1))) as H.
    rewrite wrap_small by dlia. dlia.
Qed.

Lemma MAX_chunk_range n :
  0 <= n < 2 ^ 32 -> n mod 8 = 0 ->
  let m := MAX n DEFAULT_CHUNKSIZE in
  DEFAULT_CHUNKSIZE <= m < 2 ^ 32 /\ m mod 8 = 0 /\ n <= m.
Proof.
  intros Hr Hm. unfold MAX, DEFAULT_CHUNKSIZE.
  destruct (Z.gtb_spec n 4096); cbv zeta; repeat split; try lia; reflexivity.
Qed.

(** A request of [n / WSIZE] words, for [n] a multiple of 8, asks the
    primitive for exactly [n] bytes. *)
Lemma extend_heap_request n s :
  0 <= n < 2 ^ 32 -> n mod 8 = 0 ->
  extend_heap (n / WSIZE) s =
  match mem_sbrk n s with
  | None => (NULL, s)
  | Some (bp, s) =>
      let s := WRITE (HDRP bp) (PACK n 0) s in
      let s := WRITE (FTRP s bp) (PACK n 0) s in
      let s := WRITE (HDRP (NEXT_BLKP s bp)) (PACK 0 1) s in
      handle_free bp s
  end.
Proof.
  intros Hr Hm. unfold extend_heap, WSIZE.
  assert ((n / 4) mod 2 = 0) as -> by dlia.
  cbn [Z.eqb negb]. replace (n / 4 * 4) with n by dlia.
  rewrite wrap_small by exact Hr. reflexivity.
Qed.

(** When every block on the list is too small, the search ends on NULL. *)
Lemma find_fit_loop_none fuel s asize : forall curr l,
  list_walk fuel s curr = Some l ->
  Forall (fun b => GET_SIZE s (HDRP b) < asize) l ->
  find_fit_loop fuel s asize curr = Some NULL.
Proof.
  induction fuel as [|fuel IH]; intros curr l Hw Hl; [discriminate|].
  cbn [list_walk find_fit_loop] in *.
  destruct (Z.eqb_spec curr NULL) as [->|Hc]; cbn [negb]; [reflexivity|].
  destruct (list_walk fuel s (READ s (NEXTP curr))) as [l'|] eqn:E;
    [|discriminate].
  cbn in Hw. inversion Hw. subst l. inversion Hl. subst.
  destruct (Z.ltb_spec (GET_SIZE s (HDRP curr)) asize); [|lia].
  eapply IH; eassumption.
Qed.

(** C7.  For every size for which no block on the free list is as large
    as the adjusted size [asize], [mm_malloc] asks the growth primitive for
    [MAX(asize, DEFAULT_CHUNKSIZE)] bytes: if the primitive fails on that
    request, [mm_malloc] returns NULL and the heap (memory with all block
    tags, break and list root) is exactly as before the call; if it
    succeeds, the call (for a size other than 0, which is rejected before
    the search) ends with the break advanced by exactly that many bytes. *)
Theorem mm_malloc_growth : forall fuel size s l,
  free_list fuel s = Some l ->
  Forall (fun b => GET_SIZE s (HDRP b) < adjusted_size size) l ->
  let n := MAX (adjusted_size size) DEFAULT_CHUNKSIZE in
  (mem_sbrk n s = None -> mm_malloc fuel size s = Some (NULL, s)) /\
  (size <> 0 ->
   forall bp s1, mem_sbrk n s = Some (bp, s1) ->
     exists r s', mm_malloc fuel size s = Some (r, s') /\
                  mem_brk s' = mem_brk s + n).
Proof.
  intros fuel size s l Hl Hsmall n.
  pose proof (adjusted_size_range size) as [Hr Hm].
  pose proof (MAX_chunk_range _ Hr Hm) as (Hn1 & Hn2 & _). fold n in Hn1, Hn2.
  assert (find_fit fuel (adjusted_size size) s = Some NULL) as Hfit
    by (eapply find_fit_loop_none; eassumption).
  unfold mm_malloc. rewrite Hfit. cbn [Z.eqb NULL negb]. fold n.
  rewrite extend_heap_request
    by (unfold DEFAULT_CHUNKSIZE in *; lia || assumption).
  split.
  - intros ->. destruct (size =? 0); reflexivity.
  - intros Hsz bp s1 Hgrow.
    destruct (Z.eqb_spec size 0) as [E|_]; [contradiction|].
    rewrite Hgrow. cbv zeta.
    assert (mem_brk s1 = mem_brk s + n) as Hs1.
    { unfold mem_sbrk in Hgrow. destruct (_ <? _); [discriminate|].
      inversion Hgrow. reflexivity. }
    match goal with
    | |- context [handle_free bp ?t] =>
        pose proof (same_region_handle_free bp t) as (_ & Hb & _);
        destruct (handle_free bp t) as [r s2]
    end.
    cbn [snd] in Hb. change (mem_brk s2 = mem_brk s1) in Hb.
    destruct (r =? NULL).
    + exists NULL, s2. split; [reflexivity|congruence].
    + exists r, (handle_malloc r (adjusted_size size) s2).
      split; [reflexivity|].
      pose proof (same_region_handle_malloc r (adjusted_size size) s2)
        as (_ & Hc & _).
      congruence.
Qed.

Lemma mm_malloc_growth_witness :
  mm_malloc 1 16 (init_heap 4096 4112) = Some (NULL, init_heap 4096 4112).
Proof.
  destruct (mm_malloc_growth 1 16 (init_heap 4096 4112) []) as [H _].
  - reflexivity.
  - constructor.
  - apply H. reflexivity.
Defined.

End Growth.

(** * Call sequences that break the intended invariants *)

Section Traces.

(** C2 (evaluation at the failing input).  After [mm_malloc(8)],
    [mm_malloc(8)] and [mm_free] of the first block, the heap holds two free
    blocks, 4112 and 4144, but only 4112 is reachable from the root: the
    insertion of 4112 dropped the old head 4144 from the list. *)
Theorem free_list_loses_old_head :
  exists s live,
    do_calls 2 [Malloc 8; Malloc 8; Free 4112] (init_heap 4096 16384, [])
      = Some (s, live) /\
    heap_walk 4 s (first_block s)
      = [(4112, 16, 0); (4128, 16, 1); (4144, 4064, 0)] /\
    free_blocks (heap_walk 4 s (first_block s)) = [4112; 4144] /\
    free_list 2 s = Some [4112].
Proof.
  eexists. eexists. split; [vm_compute; reflexivity|].
  vm_compute. repeat split.
Qed.

(** C4 (evaluation at the failing input).  For the size 2^32 - 1 the
    adjusted size wraps around to 8, and [mm_malloc] succeeds with a block
    of 8 bytes, all of them header and footer: the payload holds 0 bytes. *)
Theorem mm_malloc_wraps_size :
  adjusted_size 4294967295 = 8 /\
  exists s',
    mm_malloc 1 4294967295 (init_heap 4096 16384) = Some (4112, s') /\
    GET_SIZE s' (HDRP 4112) = 8 /\
    GET_SIZE s' (HDRP 4112) - DSIZE < 4294967295.
Proof.
  split; [reflexivity|].
  eexists. split; [vm_compute; reflexivity|].
  vm_compute. split; reflexivity.
Qed.

(** C3 (evaluation at the failing input).  For the size 2^32 - 1 the
    adjusted size wraps around to 8, so [mm_malloc] hands out the 8-byte
    block 4112.  Two more allocations return 4120 and 4136.
    [mm_free(4112)] then inserts the 8-byte block into the list, and its
    prev-link word is the header of the allocated block 4120, which now
    reads 0.  [mm_free(4136)] takes 4120 for a free neighbour and merges:
    an address-order walk finds the free block 4112 followed by the free
    block 4120. *)
Theorem adjacent_free_after_wrapped_size :
  adjusted_size 4294967295 = 8 /\
  exists s live,
    do_calls 2 [Malloc 4294967295; Malloc 8; Malloc 8; Free 4112; Free 4136]
             (init_heap 4096 16384, []) = Some (s, live) /\
    live = [4120] /\
    heap_walk 2 s (first_block s) = [(4112, 8, 0); (4120, 4072, 0)] /\
    adjacent_free (heap_walk 2 s (first_block s)) = true.
Proof.
  split; [reflexivity|].
  eexists. eexists. split; [vm_compute; reflexivity|].
  vm_compute. repeat split.
Qed.

End Traces.

(** * Block sequences in memory *)

Section Blocks.

Lemma block_ok_frame s s' bp size a :
  (forall x, bp - 4 <= x < bp + size - 4 -> READ s' x = READ s x) ->
  block_ok s bp size a -> block_ok s' bp size a.
Proof.
  intros Hf. unfold_macros. intros (H1 & H2 & H3 & H4 & H5 & H6).
  rewrite !Hf by lia. auto 10.
Qed.

Lemma blocks_at_le s w : forall bp e, blocks_at s bp w e -> bp <= e.
Proof.
  induction w as [|[[p size] a] w IH]; intros bp e H; cbn in H.
  - lia.
  - destruct H as (_ & Hb & Hw). apply IH in Hw.
    unfold_macros. lia.
Qed.

(** Writes outside the span of a block sequence do not disturb it. *)
Lemma blocks_at_frame s s' w : forall bp e,
  (forall x, bp - 4 <= x < e - 4 -> READ s' x = READ s x) ->
  blocks_at s bp w e -> blocks_at s' bp w e.
Proof.
  induction w as [|[[p size] a] w IH]; intros bp e Hf H; cbn in *.
  - exact H.
  - destruct H as (Hp & Hb & Hw). pose proof (blocks_at_le _ _ _ _ Hw) as Hle.
    assert (16 <= size) by (unfold_macros; lia).
    split; [exact Hp|]. split.
    + eapply block_ok_frame; [|exact Hb]. intros x Hx. apply Hf. lia.
    + apply IH; [|exact Hw]. intros x Hx. apply Hf. lia.
Qed.

Lemma blocks_at_app s w1 : forall w2 bp e,
  blocks_at s bp (w1 ++ w2) e <->
  exists mid, blocks_at s bp w1 mid /\ blocks_at s mid w2 e.
Proof.
  induction w1 as [|[[p size] a] w1 IH]; intros w2 bp e; cbn.
  - split.
    + intros H. exists bp. auto.
    + intros (mid & -> & H). exact H.
  - rewrite IH. split.
    + intros (Hp & Hb & mid & H1 & H2). exists mid. auto.
    + intros (mid & (Hp & Hb & H1) & H2). eauto.
Qed.

(** Every block of a sequence lies within its span and carries its tags. *)
Lemma blocks_at_In s w : forall bp e p size a,
  blocks_at s bp w e -> In (p, size, a) w ->
  block_ok s p size a /\ bp <= p /\ p + size <= e.
Proof.
  induction w as [|[[p' size'] a'] w IH]; intros bp e p size a H Hin;
    cbn in *; [contradiction|].
  destruct H as (Hp & Hb & Hw). pose proof (blocks_at_le _ _ _ _ Hw) as Hle.
  assert (16 <= size') by (unfold_macros; lia).
  destruct Hin as [E|Hin].
  - inversion E. subst. auto with zarith.
  - destruct (IH _ _ _ _ _ Hw Hin) as (K1 & K2 & K3). auto with zarith.
Qed.

(** Block pointers of an 8-aligned sequence are 8-aligned. *)
Lemma blocks_at_aligned s w : forall bp e p size a,
  blocks_at s bp w e -> bp mod 8 = 0 -> In (p, size, a) w -> p mod 8 = 0.
Proof.
  induction w as [|[[p' size'] a'] w IH]; intros bp e p size a H Hbp Hin;
    cbn in *; [contradiction|].
  destruct H as (Hp & Hb & Hw). destruct Hin as [E|Hin].
  - inversion E. subst. exact Hbp.
  - eapply IH; [exact Hw| |exact Hin]. unfold_macros. dlia.
Qed.

(** A block pointer occurs once in a sequence. *)
Lemma blocks_at_unique s w : forall bp e p size a size' a',
  blocks_at s bp w e ->
  In (p, size, a) w -> In (p, size', a') w -> size = size' /\ a = a'.
Proof.
  induction w as [|[[q sq] aq] w IH]; intros bp e p size a size' a' H H1 H2;
    cbn in *; [contradiction|].
  destruct H as (Hp & Hb & Hw). assert (16 <= sq) by (unfold_macros; lia).
  destruct H1 as [E1|H1], H2 as [E2|H2].
  - inversion E1. inversion E2. subst. auto.
  - inversion E1. subst.
    destruct (blocks_at_In _ _ _ _ _ _ _ Hw H2) as (_ & K & _). lia.
  - inversion E2. subst.
    destruct (blocks_at_In _ _ _ _ _ _ _ Hw H1) as (_ & K & _). lia.
  - eapply IH; eassumption.
Qed.

(** The last block of a sequence ends where the sequence ends. *)
Lemma blocks_at_snoc s w p size a bp e :
  blocks_at s bp (w ++ [(p, size, a)]) e <->
  blocks_at s bp w p /\ block_ok s p size a /\ p + size = e.
Proof.
  rewrite blocks_at_app. cbn. split.
  - intros (mid & H1 & -> & H2 & H3). auto.
  - intros (H1 & H2 & H3). exists p. auto.
Qed.

End Blocks.

(** * Coalescing keeps the heap well formed *)

Section Coalescing.

Lemma snoc_cases (A : Type) (l : list A) :
  l = [] \/ exists l' x, l = l' ++ [x].
Proof.
  induction l as [|x l' _] using rev_ind.
  - left. reflexivity.
  - right. exists l', x. reflexivity.
Qed.

(** The tag found just below [bp]: the footer of the last block of [w1], or
    of the prologue when [w1] is empty. *)
Lemma prev_tag s w1 bp :
  0 <= mem_heap_lo s ->
  READ s (mem_heap_lo s + 1 * WSIZE) = PACK DSIZE 1 /\
  READ s (mem_heap_lo s + 2 * WSIZE) = PACK DSIZE 1 ->
  blocks_at s (first_block s) w1 bp ->
  exists pb ps pa,
    READ s (bp - 8) = PACK ps pa /\ READ s (pb - 4) = PACK ps pa /\
    pb + ps = bp /\ 8 <= ps /\ ps mod 8 = 0 /\ (pa = 0 \/ pa = 1) /\
    mem_heap_lo s + 8 <= pb /\
    blk_alloc (last w1 sentinel) = pa /\
    (pa = 0 -> exists w1', w1 = w1' ++ [(pb, ps, 0)]).
Proof.
  intros Hlo [Hp1 Hp2] Hw.
  destruct (snoc_cases _ w1) as [-> | (w1' & [[pb ps] pa] & ->)].
  - cbn in Hw. subst bp.
    exists (mem_heap_lo s + 8), 8, 1. unfold_macros.
    replace (mem_heap_lo s + 4 * 4 - 8) with (mem_heap_lo s + 2 * 4) by lia.
    replace (mem_heap_lo s + 8 - 4) with (mem_heap_lo s + 1 * 4) by lia.
    repeat split; auto; try lia.
  - apply blocks_at_snoc in Hw. destruct Hw as (Hw & Hb & He).
    pose proof (blocks_at_le _ _ _ _ Hw) as Hle.
    exists pb, ps, pa. rewrite last_last. unfold blk_alloc. cbn [snd].
    unfold_macros. destruct Hb as (H1 & H2 & H3 & H4 & H5 & H6).
    replace (bp - 8) with (pb + ps - 8) by lia.
    repeat split; auto; try lia.
    intros ->. exists w1'. reflexivity.
Qed.

(** The tag found at the end of the block at [bp]: the header of the first
    block of [w2], or of the epilogue when [w2] is empty. *)
Lemma next_tag s w2 nb :
  blocks_at s nb w2 (mem_brk s) ->
  READ s (HDRP (mem_brk s)) = PACK 0 1 ->
  exists ns na,
    READ s (nb - 4) = PACK ns na /\ 0 <= ns /\ ns mod 8 = 0 /\
    (na = 0 \/ na = 1) /\ nb + ns <= mem_brk s /\
    blk_alloc (hd sentinel w2) = na /\
    (na = 0 -> exists w2', w2 = (nb, ns, 0) :: w2').
Proof.
  intros Hw He. destruct w2 as [|[[p ns] na] w2]; cbn in Hw.
  - subst nb. exists 0, 1. unfold_macros.
    repeat split; auto; try lia.
  - destruct Hw as (-> & Hb & Hw). pose proof (blocks_at_le _ _ _ _ Hw).
    exists ns, na. unfold blk_alloc. cbn.
    unfold_macros. destruct Hb as (H1 & H2 & H3 & H4 & H5 & H6).
    repeat split; auto; try lia. intros ->. exists w2. reflexivity.
Qed.

(** A heap whose blocks are [wa], one free block [(mb, msize)] with null
    links at the root of the list, and [wb], is well formed; [s] is a state
    that agrees with [s'] outside that block and holds [wa] and [wb]. *)
Lemma merged_heap_ok s s' wa mb msize wb :
  mem_heap_lo s' = mem_heap_lo s -> mem_brk s' = mem_brk s ->
  mem_max_addr s' = mem_max_addr s ->
  0 <= mem_heap_lo s /\ mem_heap_lo s mod DSIZE = 0 ->
  mem_brk s <= mem_max_addr s /\ mem_max_addr s < 2 ^ 32 ->
  READ s (mem_heap_lo s + 1 * WSIZE) = PACK DSIZE 1 /\
  READ s (mem_heap_lo s + 2 * WSIZE) = PACK DSIZE 1 ->
  blocks_at s (first_block s) wa mb ->
  blocks_at s (mb + msize) wb (mem_brk s) ->
  READ s (HDRP (mem_brk s)) = PACK 0 1 ->
  16 <= msize -> msize mod 8 = 0 ->
  (forall x, x < mb - 4 \/ mb + msize - 4 <= x -> READ s' x = READ s x) ->
  READ s' (mb - 4) = PACK msize 0 ->
  READ s' (mb + msize - 8) = PACK msize 0 ->
  READ s' mb = 0 -> READ s' (mb + 4) = 0 ->
  FREE_LIST_ROOT s' = mb ->
  heap_ok s' (wa ++ (mb, msize, 0) :: wb).
Proof.
  intros E1 E2 E3 Hlo Hmax [Hp1 Hp2] Hwa Hwb Hepi Hm1 Hm2 Hout Hh Hf Hn Hp Hr.
  pose proof (blocks_at_le _ _ _ _ Hwa) as Hle1.
  pose proof (blocks_at_le _ _ _ _ Hwb) as Hle2.
  unfold first_block, WSIZE in Hle1.
  constructor; rewrite ?E1, ?E2, ?E3; try assumption.
  - unfold WSIZE in *. rewrite !Hout by lia. auto.
  - apply blocks_at_app. exists mb. split.
    + unfold first_block. rewrite E1.
      eapply blocks_at_frame; [|exact Hwa]. intros x Hx. apply Hout. lia.
    + cbn. split; [reflexivity|]. split.
      * unfold_macros. repeat split; auto; lia.
      * eapply blocks_at_frame; [|exact Hwb]. intros x Hx. apply Hout. lia.
  - unfold HDRP, WSIZE in *. rewrite Hout by lia. exact Hepi.
  - right. exists msize. rewrite Hr. apply in_or_app. right. left. reflexivity.
Qed.

(** In a heap with a pending free block, the root is null or a free block
    away from the pending one, with null links. *)
Lemma pending_root s w1 bp size w2 :
  pending_free s w1 bp size w2 ->
  FREE_LIST_ROOT s = NULL \/
  (READ s (NEXTP (FREE_LIST_ROOT s)) = NULL /\
   READ s (PREVP (FREE_LIST_ROOT s)) = NULL /\
   (FREE_LIST_ROOT s + 16 <= bp \/ bp + size <= FREE_LIST_ROOT s)).
Proof.
  intros [Hlo Hmax Hpro Hbef Hs Ht Haft Hepi [Hr|(rs & Hr)]]; [left; exact Hr|].
  right. apply in_app_or in Hr. destruct Hr as [Hr|Hr].
  - destruct (blocks_at_In _ _ _ _ _ _ _ Hbef Hr) as (Hb & K1 & K2).
    unfold_macros. destruct Hb as (H1 & H2 & H3 & H4 & H5 & H6).
    destruct H6 as [H6 H7]; [reflexivity|]. repeat split; auto. lia.
  - destruct (blocks_at_In _ _ _ _ _ _ _ Haft Hr) as (Hb & K1 & K2).
    unfold_macros. destruct Hb as (H1 & H2 & H3 & H4 & H5 & H6).
    destruct H6 as [H6 H7]; [reflexivity|]. repeat split; auto.
Qed.

(** The readings [handle_free(bp)] takes of its neighbours. *)
Lemma handle_free_reads s w1 bp size w2 :
  pending_free s w1 bp size w2 ->
  exists pb ps pa ns na,
    PREV_BLKP s bp = pb /\ NEXT_BLKP s bp = bp + size /\
    GET_ALLOC s (FTRP s pb) = pa /\ GET_ALLOC s (HDRP (bp + size)) = na /\
    GET_SIZE s (HDRP bp) = size /\
    GET_SIZE s (HDRP pb) = ps /\ GET_SIZE s (HDRP (bp + size)) = ns /\
    pb + ps = bp /\ 8 <= ps /\ 0 <= ns /\ ps mod 8 = 0 /\ ns mod 8 = 0 /\
    mem_heap_lo s + 8 <= pb /\ bp + size + ns <= mem_brk s /\
    (pa = 0 \/ pa = 1) /\ (na = 0 \/ na = 1) /\
    blk_alloc (last w1 sentinel) = pa /\ blk_alloc (hd sentinel w2) = na /\
    (pa = 0 -> exists w1', w1 = w1' ++ [(pb, ps, 0)]) /\
    (na = 0 -> exists w2', w2 = (bp + size, ns, 0) :: w2').
Proof.
  intros [Hlo Hmax Hpro Hbef [Hs1 Hs2] [Hh Hf] Haft Hepi Hroot].
  destruct (prev_tag s w1 bp (proj1 Hlo) Hpro Hbef)
    as (pb & ps & pa & Hpf & Hph & Hpe & Hps & Hpm & Hpa & Hplo & Hlast & Hw1).
  destruct (next_tag s w2 (bp + size) Haft Hepi)
    as (ns & na & Hnh & Hns & Hnm & Hna & Hnb & Hhd & Hw2).
  pose proof (blocks_at_le _ _ _ _ Hbef) as Hle1.
  pose proof (blocks_at_le _ _ _ _ Haft) as Hle2.
  unfold_macros.
  destruct (tag_decode s (bp - 8) ps pa) as [G1 G2]; try assumption; try lia.
  destruct (tag_decode s (pb - 4) ps pa) as [G3 G4]; try assumption; try lia.
  destruct (tag_decode s (bp - 4) size 0) as [G5 G6]; try assumption; try lia; auto.
  destruct (tag_decode s (bp + size - 4) ns na) as [G7 G8];
    try assumption; try lia.
  exists pb, ps, pa, ns, na.
  unfold PREV_BLKP, NEXT_BLKP, FTRP, HDRP, DSIZE, WSIZE.
  rewrite G1, G5. replace (bp - ps) with pb by lia. rewrite G3.
  replace (pb + ps - 8) with (bp - 8) by lia.
  repeat split; auto; lia.
Qed.

Lemma GET_SIZE_set_root s r p : GET_SIZE (set_root s r) p = GET_SIZE s p.
Proof. reflexivity. Qed.

Lemma GET_SIZE_WRITE_other p q v s :
  q <> p -> GET_SIZE (WRITE p v s) q = GET_SIZE s q.
Proof. intros H. apply GET_SIZE_eq. apply READ_WRITE_other. exact H. Qed.

Lemma FTRP_eval s p n : GET_SIZE s (HDRP p) = n -> FTRP s p = p + n - 8.
Proof. intros H. unfold FTRP, DSIZE. rewrite H. reflexivity. Qed.

(** [handle_free] on a pending free block: the heap becomes well formed,
    with the block coalesced into its free neighbours; the block returned
    is the root of the list and is at least as large as the one passed. *)
Lemma handle_free_ok s w1 bp size w2 :
  pending_free s w1 bp size w2 ->
  heap_ok (snd (handle_free bp s)) (coalesce w1 bp size w2) /\
  FREE_LIST_ROOT (snd (handle_free bp s)) = fst (handle_free bp s) /\
  exists rsize,
    In (fst (handle_free bp s), rsize, 0) (coalesce w1 bp size w2) /\
    size <= rsize.
Proof.
  intros Hpf. pose proof (pending_root _ _ _ _ _ Hpf) as Hroot.
  destruct (handle_free_reads _ _ _ _ _ Hpf)
    as (pb & ps & pa & ns & na & Hprev & Hnext & Hpalloc & Hnalloc & Gsz & Gps
        & Gns & Hpe & Hps & Hns & Hpm & Hnm & Hplo & Hnb & Hpa & Hna & Hlast
        & Hhd & Hw1 & Hw2).
  destruct Hpf as [Hlo Hmax Hpro Hbef [Hs1 Hs2] [Hh Hf] Haft Hepi _].
  pose proof (blocks_at_le _ _ _ _ Hbef) as Hle1.
  unfold handle_free. cbv zeta. rewrite Hprev, Hnext, Hpalloc, Hnalloc.
  unfold coalesce. cbv zeta. rewrite Hlast, Hhd.
  unfold_macros. rewrite ?Gsz.
  destruct Hpa as [->| ->], Hna as [->| ->]; cbn [Z.eqb negb andb fst snd].
  - (* both neighbours free *)
    destruct (Hw1 eq_refl) as (w1' & ->). destruct (Hw2 eq_refl) as (w2' & ->).
    apply blocks_at_snoc in Hbef.
    destruct Hbef as (Hbef & (Hq1 & _ & _ & _ & _ & Hq6) & _).
    destruct Hq6 as [Hq6 Hq7]; [reflexivity|].
    cbn in Haft. destruct Haft as (_ & (Hn1 & _ & _ & _ & _ & Hn6) & Haft).
    destruct Hn6 as [Hn6 Hn7]; [reflexivity|].
    pose proof (blocks_at_le _ _ _ _ Hbef) as Hle0. unfold_macros.
    rewrite (fb_patching_null pb s) by assumption.
    rewrite (fb_patching_null (bp + size) (set_root s NULL)) by assumption.
    rewrite !GET_SIZE_set_root, Gps, Gns, !wrap_small by (rewrite ?wrap_small; lia).
    rewrite (FTRP_eval _ (bp + size) ns)
      by (unfold HDRP, WSIZE; rewrite GET_SIZE_WRITE_other by lia; exact Gns).
    rewrite add_free_null by (left; reflexivity).
    rewrite last_last, removelast_last.
    cbn [fst snd hd tl blk_bp blk_size]. split; [|split; [reflexivity|]].
    + unfold_macros.
      eapply (merged_heap_ok s); try eassumption; try reflexivity; try lia.
      * replace (pb + (size + ps + ns)) with (bp + size + ns) by lia.
        exact Haft.
      * dlia.
      * intros x Hx. reads. reflexivity.
      * reads. apply wrap_PACK; auto; dlia.
      * replace (pb + (size + ps + ns) - 8) with (bp + size + ns - 8) by lia.
        reads. apply wrap_PACK; auto; dlia.
      * reads. reflexivity.
      * reads. reflexivity.
    + exists (size + ps + ns). split; [|lia]. apply in_or_app. right. left.
      reflexivity.
  - (* previous free, next allocated *)
    destruct (Hw1 eq_refl) as (w1' & ->).
    apply blocks_at_snoc in Hbef.
    destruct Hbef as (Hbef & (Hq1 & _ & _ & _ & _ & Hq6) & _).
    destruct Hq6 as [Hq6 Hq7]; [reflexivity|].
    pose proof (blocks_at_le _ _ _ _ Hbef) as Hle0. unfold_macros.
    rewrite (fb_patching_null pb s) by assumption.
    rewrite GET_SIZE_set_root, Gps, wrap_small by lia.
    rewrite (FTRP_eval _ bp size)
      by (unfold HDRP, WSIZE; rewrite GET_SIZE_WRITE_other by lia; exact Gsz).
    rewrite add_free_null by (left; reflexivity).
    rewrite last_last, removelast_last.
    cbn [fst snd blk_bp blk_size]. split; [|split; [reflexivity|]].
    + unfold_macros.
      eapply (merged_heap_ok s); try eassumption; try reflexivity; try lia.
      * replace (pb + (size + ps)) with (bp + size) by lia. exact Haft.
      * dlia.
      * intros x Hx. reads. reflexivity.
      * reads. apply wrap_PACK; auto; dlia.
      * replace (pb + (size + ps) - 8) with (bp + size - 8) by lia.
        reads. apply wrap_PACK; auto; dlia.
      * reads. reflexivity.
      * reads. reflexivity.
    + exists (size + ps). split; [|lia]. apply in_or_app. right. left.
      reflexivity.
  - (* previous allocated, next free *)
    destruct (Hw2 eq_refl) as (w2' & ->). cbn in Haft.
    destruct Haft as (_ & (Hn1 & _ & _ & _ & _ & Hn6) & Haft).
    destruct Hn6 as [Hn6 Hn7]; [reflexivity|].
    rewrite (fb_patching_null (bp + size) s) by assumption.
    rewrite GET_SIZE_set_root, Gns, wrap_small by lia.
    rewrite (FTRP_eval _ (bp + size) ns)
      by (unfold HDRP, WSIZE; rewrite GET_SIZE_WRITE_other by lia; exact Gns).
    rewrite add_free_null by (left; reflexivity).
    cbn [fst snd hd tl blk_size]. split; [|split; [reflexivity|]].
    + unfold_macros.
      eapply (merged_heap_ok s); try eassumption; try reflexivity; try lia.
      * replace (bp + (size + ns)) with (bp + size + ns) by lia. exact Haft.
      * dlia.
      * intros x Hx. reads. reflexivity.
      * reads. apply wrap_PACK; auto; dlia.
      * replace (bp + (size + ns) - 8) with (bp + size + ns - 8) by lia.
        reads. apply wrap_PACK; auto; dlia.
      * reads. reflexivity.
      * reads. reflexivity.
    + exists (size + ns). split; [|lia]. apply in_or_app. right. left.
      reflexivity.
  - (* both allocated *)
    rewrite add_free_null.
    2:{ unfold_macros. destruct Hroot as [Hr|(Hr1 & Hr2 & Hr3)]; [left; exact Hr|].
        right. split; [lia|exact Hr1]. }
    cbn [fst snd]. split; [|split; [reflexivity|]].
    + unfold_macros.
      eapply (merged_heap_ok s); try eassumption; try reflexivity; try lia.
      * intros x Hx. reads. reflexivity.
      * reads. exact Hh.
      * reads. exact Hf.
      * reads. reflexivity.
      * reads. reflexivity.
    + exists size. split; [|lia]. apply in_or_app. right. left. reflexivity.
Qed.

(** [mm_free] of an allocated block of a well-formed heap leaves a
    well-formed heap, with the block coalesced into its free neighbours. *)
Lemma mm_free_ok s w1 bp size w2 :
  heap_ok s (w1 ++ (bp, size, 1) :: w2) ->
  heap_ok (mm_free bp s) (coalesce w1 bp size w2).
Proof.
  intros [Hlo Hmax Hpro Hblk Hepi Hroot].
  apply blocks_at_app in Hblk. destruct Hblk as (mid & Hbef & Hblk).
  cbn in Hblk. destruct Hblk as (<- & Hb & Haft).
  pose proof (blocks_at_le _ _ _ _ Hbef) as Hle1.
  pose proof (blocks_at_le _ _ _ _ Haft) as Hle2.
  destruct Hb as (H1 & H2 & H3 & H4 & H5 & H6). unfold_macros.
  destruct (tag_decode s (bp - 4) size 1) as [G _]; auto; try lia.
  unfold mm_free. cbv zeta. unfold HDRP, WSIZE. rewrite G.
  rewrite (FTRP_eval _ bp size)
    by (unfold HDRP, WSIZE; apply tag_decode with (a := 0); auto; try lia;
        reads; apply wrap_PACK; auto; lia).
  apply handle_free_ok. constructor; unfold_macros; cbn [mem_heap_lo mem_brk
    mem_max_addr FREE_LIST_ROOT WRITE set_mem]; try assumption.
  - reads. exact Hpro.
  - eapply blocks_at_frame; [|exact Hbef]. intros x Hx. reads. reflexivity.
  - auto.
  - split; reads; apply wrap_PACK; auto; lia.
  - eapply blocks_at_frame; [|exact Haft]. intros x Hx. reads. reflexivity.
  - reads. exact Hepi.
  - destruct Hroot as [Hr|(rs & Hr)]; [left; exact Hr|]. right. exists rs.
    apply in_app_or in Hr. apply in_or_app.
    destruct Hr as [Hr|[Hr|Hr]]; [left; exact Hr|discriminate Hr|right; exact Hr].
Qed.

End Coalescing.

(** * Placement keeps the heap well formed *)

Section Placement.

(** Replacing the blocks between [wa] and [wb] by [wm]: when [s'] agrees
    with the well-formed parts of [s] outside the replaced span and holds
    [wm] inside it, [s'] is well formed. *)
Lemma heap_ok_rebuild s s' wa a_end wm b_start wb :
  mem_heap_lo s' = mem_heap_lo s -> mem_brk s' = mem_brk s ->
  mem_max_addr s' = mem_max_addr s ->
  0 <= mem_heap_lo s /\ mem_heap_lo s mod DSIZE = 0 ->
  mem_brk s <= mem_max_addr s /\ mem_max_addr s < 2 ^ 32 ->
  READ s (mem_heap_lo s + 1 * WSIZE) = PACK DSIZE 1 /\
  READ s (mem_heap_lo s + 2 * WSIZE) = PACK DSIZE 1 ->
  blocks_at s (first_block s) wa a_end ->
  blocks_at s b_start wb (mem_brk s) ->
  READ s (HDRP (mem_brk s)) = PACK 0 1 ->
  (forall x, x < a_end - 4 \/ b_start - 4 <= x -> READ s' x = READ s x) ->
  blocks_at s' a_end wm b_start ->
  (FREE_LIST_ROOT s' = NULL \/ exists size, In (FREE_LIST_ROOT s', size, 0) wm) ->
  heap_ok s' (wa ++ wm ++ wb).
Proof.
  intros E1 E2 E3 Hlo Hmax [Hp1 Hp2] Hwa Hwb Hepi Hout Hwm Hr.
  pose proof (blocks_at_le _ _ _ _ Hwa) as Hle1.
  pose proof (blocks_at_le _ _ _ _ Hwb) as Hle2.
  pose proof (blocks_at_le _ _ _ _ Hwm) as Hle3.
  unfold first_block, WSIZE in Hle1.
  constructor; rewrite ?E1, ?E2, ?E3; try assumption.
  - unfold WSIZE in *. rewrite !Hout by lia. auto.
  - apply blocks_at_app. exists a_end. split.
    + unfold first_block. rewrite E1.
      eapply blocks_at_frame; [|exact Hwa]. intros x Hx. apply Hout. lia.
    + apply blocks_at_app. exists b_start. split; [exact Hwm|].
      eapply blocks_at_frame; [|exact Hwb]. intros x Hx. apply Hout. lia.
  - unfold HDRP, WSIZE in *. rewrite Hout by lia. exact Hepi.
  - destruct Hr as [Hr|(size & Hr)]; [left; exact Hr|]. right. exists size.
    apply in_or_app. right. apply in_or_app. left. exact Hr.
Qed.

Lemma GET_SIZE_WRITE_PACK p size a s :
  0 <= size < 2 ^ 32 -> size mod 8 = 0 -> a = 0 \/ a = 1 ->
  GET_SIZE (WRITE p (PACK size a) s) p = size.
Proof.
  intros Hr Hm Ha. apply tag_decode with (a := a); auto.
  rewrite READ_WRITE_same. apply wrap_PACK; auto.
Qed.

(** [handle_malloc] on a free block of a well-formed heap, for an adjusted
    size that fits: the block is replaced by [place]. *)
Lemma handle_malloc_ok s w1 bp cf w2 asize :
  heap_ok s (w1 ++ (bp, cf, 0) :: w2) ->
  2 * DSIZE <= asize <= cf -> asize mod DSIZE = 0 ->
  heap_ok (handle_malloc bp asize s) (w1 ++ place bp cf asize ++ w2).
Proof.
  intros [Hlo Hmax Hpro Hblk Hepi Hroot] Ha Ham.
  apply blocks_at_app in Hblk. destruct Hblk as (mid & Hbef & Hblk).
  cbn in Hblk. destruct Hblk as (<- & Hb & Haft).
  pose proof (blocks_at_le _ _ _ _ Hbef) as Hle1.
  pose proof (blocks_at_le _ _ _ _ Haft) as Hle2.
  destruct Hb as (H1 & H2 & H3 & H4 & H5 & H6).
  destruct H6 as [H6 H7]; [reflexivity|]. unfold_macros.
  destruct (tag_decode s (bp - 4) cf 0) as [G _]; auto; try lia.
  unfold handle_malloc, place. cbv zeta. unfold HDRP, DSIZE, WSIZE. rewrite G.
  rewrite (fb_patching_null bp s) by assumption.
  rewrite (wrap_small (cf - asize)) by lia.
  destruct (Z.ltb_spec (cf - asize) (8 * 2)) as [Hrem|Hrem].
  - rewrite (FTRP_eval _ bp cf)
      by (unfold HDRP, WSIZE; apply tag_decode with (a := 1); auto; try lia;
          reads; apply wrap_PACK; auto; lia).
    eapply (heap_ok_rebuild s); try eassumption; try reflexivity;
      unfold_macros; try assumption.
    + intros x Hx. reads. reflexivity.
    + cbn. split; [reflexivity|]. split; [|reflexivity].
      unfold_macros. repeat split; auto; try lia; try discriminate.
      * reads. apply wrap_PACK; auto; lia.
      * reads. apply wrap_PACK; auto; lia.
    + left. reflexivity.
  - assert ((cf - asize) mod 8 = 0) as Hrm by dlia.
    rewrite (FTRP_eval _ bp asize)
      by (unfold HDRP, WSIZE; apply GET_SIZE_WRITE_PACK; auto; lia).
    unfold NEXT_BLKP, WSIZE.
    rewrite (GET_SIZE_WRITE_other (bp + asize - 8)) by lia.
    rewrite GET_SIZE_WRITE_PACK by (auto; lia).
    rewrite (FTRP_eval _ (bp + asize) (cf - asize))
      by (unfold HDRP, WSIZE; apply GET_SIZE_WRITE_PACK; auto; lia).
    rewrite add_free_null by (left; reflexivity).
    eapply (heap_ok_rebuild s); try eassumption; try reflexivity;
      unfold_macros; try assumption.
    + intros x Hx. reads. reflexivity.
    + cbn. split; [reflexivity|]. split; [|split; [reflexivity|split]].
      * unfold_macros. repeat split; auto; try lia; try discriminate.
        -- reads. apply wrap_PACK; auto; lia.
        -- reads. apply wrap_PACK; auto; lia.
      * unfold_macros. repeat split; auto; try lia.
        -- reads. apply wrap_PACK; auto; lia.
        -- reads. apply wrap_PACK; auto; lia.
        -- reads. reflexivity.
        -- reads. reflexivity.
      * lia.
    + right. exists (cf - asize). right. left. reflexivity.
Qed.

End Placement.

(** * Searching and growing a well-formed heap *)

Section Allocation.

(** In a well-formed heap the list holds at most its root, so the search
    returns the root when it fits and NULL otherwise. *)
Lemma find_fit_ok s w fuel asize r :
  heap_ok s w -> find_fit fuel asize s = Some r ->
  r = NULL \/ exists cf, In (r, cf, 0) w /\ asize <= cf.
Proof.
  intros [Hlo Hmax Hpro Hblk Hepi Hroot]. unfold find_fit.
  destruct fuel as [|fuel]; [discriminate|]. cbn [find_fit_loop].
  destruct (Z.eqb_spec (FREE_LIST_ROOT s) NULL) as [E|E]; cbn [negb].
  - intros H. inversion H. left. congruence.
  - destruct Hroot as [Hr|(rs & Hr)]; [contradiction|].
    destruct (blocks_at_In _ _ _ _ _ _ _ Hblk Hr) as (Hb & K1 & K2).
    destruct Hb as (H1 & H2 & H3 & H4 & H5 & H6).
    destruct H6 as [H6 H7]; [reflexivity|]. unfold_macros.
    destruct (tag_decode s (FREE_LIST_ROOT s - 4) rs 0) as [G _];
      auto; try lia.
    rewrite G, H6.
    destruct (Z.ltb_spec rs asize) as [Hlt|Hge].
    + destruct fuel as [|fuel]; [discriminate|]. cbn.
      intros H. inversion H. left. reflexivity.
    + intros H. inversion H. subst r. right. exists rs. auto.
Qed.

(** The free list of a well-formed heap is empty or holds its root alone. *)
Lemma free_list_at_most_root s w :
  heap_ok s w ->
  free_list 2 s
  = Some (if FREE_LIST_ROOT s =? NULL then [] else [FREE_LIST_ROOT s]).
Proof.
  intros [Hlo Hmax Hpro Hblk Hepi Hroot]. unfold free_list.
  cbn [list_walk].
  destruct (Z.eqb_spec (FREE_LIST_ROOT s) NULL) as [E|E]; [reflexivity|].
  destruct Hroot as [Hr|(rs & Hr)]; [contradiction|].
  destruct (blocks_at_In _ _ _ _ _ _ _ Hblk Hr) as (Hb & K1 & K2).
  destruct Hb as (H1 & H2 & H3 & H4 & H5 & H6).
  destruct H6 as [H6 H7]; [reflexivity|]. rewrite H6. reflexivity.
Qed.

(** Two iterations always suffice. *)
Lemma find_fit_total s w fuel asize :
  heap_ok s w -> (2 <= fuel)%nat -> exists r, find_fit fuel asize s = Some r.
Proof.
  intros [Hlo Hmax Hpro Hblk Hepi Hroot] Hfuel. unfold find_fit.
  destruct fuel as [|[|fuel]]; [lia|lia|]. cbn [find_fit_loop].
  destruct (Z.eqb_spec (FREE_LIST_ROOT s) NULL) as [E|E]; cbn [negb];
    [eauto|].
  destruct (_ <? _); [|eauto].
  destruct Hroot as [Hr|(rs & Hr)]; [contradiction|].
  destruct (blocks_at_In _ _ _ _ _ _ _ Hblk Hr) as (Hb & K1 & K2).
  destruct Hb as (H1 & H2 & H3 & H4 & H5 & H6).
  destruct H6 as [H6 H7]; [reflexivity|]. rewrite H6. cbn. eauto.
Qed.

(** Growing a well-formed heap by [n] bytes: the new region is a free block
    coalesced with the last block when that one is free, and is the root. *)
Lemma extend_heap_ok s w n bp s1 :
  heap_ok s w -> 2 * DSIZE <= n -> n mod DSIZE = 0 ->
  mem_sbrk n s = Some (bp, s1) ->
  let w' := coalesce w (mem_brk s) n [] in
  heap_ok (snd (extend_heap (n / WSIZE) s)) w' /\
  FREE_LIST_ROOT (snd (extend_heap (n / WSIZE) s))
    = fst (extend_heap (n / WSIZE) s) /\
  exists rsize,
    In (fst (extend_heap (n / WSIZE) s), rsize, 0) w' /\ n <= rsize.
Proof.
  intros [Hlo Hmax Hpro Hblk Hepi Hroot] Hn Hnm Hgrow w'.
  pose proof (blocks_at_le _ _ _ _ Hblk) as Hle.
  unfold mem_sbrk in Hgrow.
  destruct (Z.ltb_spec (mem_max_addr s) (mem_brk s + n)) as [|Hfit];
    [discriminate|].
  unfold_macros.
  rewrite extend_heap_request by (assumption || lia).
  unfold mem_sbrk. destruct (Z.ltb_spec (mem_max_addr s) (mem_brk s + n));
    [lia|]. cbv zeta.
  rewrite (FTRP_eval _ (mem_brk s) n)
    by (unfold HDRP, WSIZE; apply GET_SIZE_WRITE_PACK; auto; lia).
  unfold NEXT_BLKP, HDRP, WSIZE.
  rewrite (GET_SIZE_WRITE_other (mem_brk s + n - 8)) by lia.
  rewrite GET_SIZE_WRITE_PACK by (auto; lia).
  apply handle_free_ok.
  constructor; unfold_macros;
    cbn [mem_heap_lo mem_brk mem_max_addr FREE_LIST_ROOT WRITE set_mem].
  - exact Hlo.
  - lia.
  - reads. exact Hpro.
  - eapply blocks_at_frame; [|exact Hblk]. intros x Hx. reads. reflexivity.
  - auto.
  - split; reads; apply wrap_PACK; auto; lia.
  - cbn. reflexivity.
  - reads. reflexivity.
  - rewrite app_nil_r. exact Hroot.
Qed.

End Allocation.

(** * Block sequences under coalescing and placement *)

Section BlockLists.

Lemma adjacent_free_cons b l :
  adjacent_free (b :: l)
  = (is_free b && is_free (hd sentinel l)) || adjacent_free l.
Proof.
  destruct b as [[p size] a]. destruct l as [|[[p' size'] a'] l]; cbn.
  - rewrite andb_false_r. reflexivity.
  - reflexivity.
Qed.

Lemma adjacent_free_app l1 l2 :
  adjacent_free (l1 ++ l2)
  = adjacent_free l1
    || (is_free (last l1 sentinel) && is_free (hd sentinel l2))
    || adjacent_free l2.
Proof.
  induction l1 as [|b l1 IH].
  - reflexivity.
  - change ((b :: l1) ++ l2) with (b :: (l1 ++ l2)).
    rewrite !adjacent_free_cons, IH.
    destruct l1 as [|b' l1].
    + cbn [app last hd adjacent_free]. cbn [orb].
      destruct (is_free b), (is_free (hd sentinel l2)), (adjacent_free l2);
        reflexivity.
    + cbn [app hd]. change (last (b :: b' :: l1) sentinel)
        with (last (b' :: l1) sentinel).
      destruct (is_free b), (is_free b'), (adjacent_free (b' :: l1)),
        (is_free (last (b' :: l1) sentinel)), (is_free (hd sentinel l2)),
        (adjacent_free l2); reflexivity.
Qed.

Lemma coalesced_app l1 l2 :
  coalesced (l1 ++ l2) <->
  coalesced l1 /\ coalesced l2 /\
  (is_free (last l1 sentinel) && is_free (hd sentinel l2)) = false.
Proof.
  unfold coalesced. rewrite adjacent_free_app, !orb_false_iff. tauto.
Qed.

Lemma coalesced_cons b l :
  coalesced (b :: l) <->
  coalesced l /\ (is_free b && is_free (hd sentinel l)) = false.
Proof.
  unfold coalesced. rewrite adjacent_free_cons, orb_false_iff. tauto.
Qed.

Lemma free_last_inv w :
  coalesced w -> is_free (last w sentinel) = true ->
  exists w' pb ps,
    w = w' ++ [(pb, ps, 0)] /\ coalesced w' /\
    is_free (last w' sentinel) = false.
Proof.
  intros Hc Hf. destruct (snoc_cases _ w) as [-> | (w' & [[pb ps] pa] & ->)].
  - discriminate Hf.
  - rewrite last_last in Hf. unfold is_free, blk_alloc in Hf. cbn in Hf.
    apply Z.eqb_eq in Hf. subst pa. exists w', pb, ps.
    apply coalesced_app in Hc. destruct Hc as (H1 & _ & H2).
    cbn in H2. rewrite andb_true_r in H2. auto.
Qed.

Lemma free_hd_inv w :
  coalesced w -> is_free (hd sentinel w) = true ->
  exists nb ns w',
    w = (nb, ns, 0) :: w' /\ coalesced w' /\
    is_free (hd sentinel w') = false.
Proof.
  intros Hc Hf. destruct w as [|[[nb ns] na] w'].
  - discriminate Hf.
  - unfold is_free, blk_alloc in Hf. cbn in Hf.
    apply Z.eqb_eq in Hf. subst na. exists nb, ns, w'.
    apply coalesced_cons in Hc. destruct Hc as (H1 & H2).
    cbn in H2. auto.
Qed.

(** Coalescing a freed block leaves no two adjacent free blocks. *)
Lemma coalesced_coalesce w1 bp size w2 :
  coalesced w1 -> coalesced w2 -> coalesced (coalesce w1 bp size w2).
Proof.
  intros H1 H2. unfold coalesce. cbv zeta.
  fold (is_free (last w1 sentinel)). fold (is_free (hd sentinel w2)).
  destruct (is_free (last w1 sentinel)) eqn:E1;
    destruct (is_free (hd sentinel w2)) eqn:E2; cbn [negb andb].
  - destruct (free_last_inv _ H1 E1) as (w1' & pb & ps & -> & K1 & K2).
    destruct (free_hd_inv _ H2 E2) as (nb & ns & w2' & -> & K3 & K4).
    rewrite last_last, removelast_last. cbn [tl].
    apply coalesced_app. split; [exact K1|]. split.
    + apply coalesced_cons. split; [exact K3|]. apply andb_false_iff. right. exact K4.
    + apply andb_false_iff. left. exact K2.
  - destruct (free_last_inv _ H1 E1) as (w1' & pb & ps & -> & K1 & K2).
    rewrite last_last, removelast_last.
    apply coalesced_app. split; [exact K1|]. split.
    + apply coalesced_cons. split; [exact H2|]. apply andb_false_iff. right. exact E2.
    + apply andb_false_iff. left. exact K2.
  - destruct (free_hd_inv _ H2 E2) as (nb & ns & w2' & -> & K3 & K4).
    cbn [tl]. apply coalesced_app. split; [exact H1|]. split.
    + apply coalesced_cons. split; [exact K3|]. apply andb_false_iff. right. exact K4.
    + apply andb_false_iff. left. exact E1.
  - apply coalesced_app. split; [exact H1|]. split.
    + apply coalesced_cons. split; [exact H2|]. apply andb_false_iff. right. exact E2.
    + apply andb_false_iff. left. exact E1.
Qed.

(** Placement leaves no two adjacent free blocks. *)
Lemma coalesced_place w1 bp cf asize w2 :
  coalesced (w1 ++ (bp, cf, 0) :: w2) ->
  coalesced (w1 ++ place bp cf asize ++ w2).
Proof.
  intros H. apply coalesced_app in H. destruct H as (H1 & H2 & H3).
  apply coalesced_cons in H2. destruct H2 as (H2 & H4).
  cbn in H3, H4. rewrite andb_true_r in H3.
  unfold place. destruct (_ <? _); cbn [app].
  - apply coalesced_app. split; [exact H1|]. split.
    + apply coalesced_cons. split; [exact H2|]. reflexivity.
    + cbn. apply andb_false_r.
  - apply coalesced_app. split; [exact H1|]. split.
    + apply coalesced_cons. split; [|reflexivity].
      apply coalesced_cons. split; [exact H2|exact H4].
    + cbn. apply andb_false_r.
Qed.

(** Allocated blocks other than the freed one stay in place. *)
Lemma In_alloc_coalesce w1 bp size w2 q sz :
  In (q, sz, 1) w1 \/ In (q, sz, 1) w2 ->
  In (q, sz, 1) (coalesce w1 bp size w2).
Proof.
  intros H. unfold coalesce. cbv zeta.
  assert (blk_alloc (last w1 sentinel) = 0 ->
          In (q, sz, 1) w1 -> In (q, sz, 1) (removelast w1)) as K1.
  { intros E Hin.
    destruct (snoc_cases _ w1) as [-> | (w1' & [[pb ps] pa] & ->)];
      [contradiction|].
    rewrite last_last in E. cbn in E. subst pa. rewrite removelast_last.
    apply in_app_or in Hin. destruct Hin as [Hin|[Hin|[]]];
      [exact Hin|discriminate Hin]. }
  assert (blk_alloc (hd sentinel w2) = 0 ->
          In (q, sz, 1) w2 -> In (q, sz, 1) (tl w2)) as K2.
  { intros E Hin. destruct w2 as [|[[nb ns] na] w2']; [contradiction|].
    cbn in E. subst na. destruct Hin as [Hin|Hin];
      [discriminate Hin|exact Hin]. }
  destruct (Z.eqb_spec (blk_alloc (last w1 sentinel)) 0) as [E1|E1];
    destruct (Z.eqb_spec (blk_alloc (hd sentinel w2)) 0) as [E2|E2];
    cbn [negb andb]; apply in_or_app;
    (destruct H as [H|H]; [left|right; right]); auto.
Qed.

Lemma In_alloc_place w1 bp cf asize w2 q sz :
  In (q, sz, 1) (w1 ++ (bp, cf, 0) :: w2) ->
  In (q, sz, 1) (w1 ++ place bp cf asize ++ w2).
Proof.
  intros H. apply in_app_or in H. apply in_or_app.
  destruct H as [H|[H|H]]; [left; exact H|discriminate H|].
  right. apply in_or_app. right. exact H.
Qed.

End BlockLists.

(** * Calls on a well-formed heap *)

Section Calls.

(** [mm_init] on a fresh region builds a well-formed heap with no block. *)
Lemma mm_init_ok s s0 :
  fresh s -> mm_init s = (0, s0) -> heap_ok s0 [].
Proof.
  intros (Hr & Hb & Hlo & Hal & Hmax). unfold mm_init, mem_sbrk.
  destruct (Z.ltb_spec (mem_max_addr s) (mem_brk s + 4 * WSIZE)) as [|Hfit];
    [discriminate|].
  intros H. inversion H. subst s0. clear H.
  constructor; unfold_macros;
    cbn [mem_heap_lo mem_brk mem_max_addr FREE_LIST_ROOT WRITE set_mem
         blocks_at].
  - auto.
  - lia.
  - split; reads; rewrite Hb; reads; reflexivity.
  - lia.
  - rewrite READ_WRITE.
    match goal with |- context [?a =? ?b] => destruct (Z.eqb_spec a b) end;
      [reflexivity|lia].
  - left. exact Hr.
Qed.

(** Without wrap-around the adjusted size covers the request and the two
    tag words. *)
Lemma adjusted_size_ok size :
  size_ok size -> size <> 0 ->
  let asize := adjusted_size size in
  2 * DSIZE <= asize < 2 ^ 32 /\ asize mod DSIZE = 0 /\ size + DSIZE <= asize.
Proof.
  unfold size_ok, adjusted_size, DSIZE. intros Hs Hz.
  destruct (Z.leb_spec size 8); cbv zeta.
  - repeat split; try lia.
  - rewrite (wrap_small (size + 8 + (8 - 1))) by lia.
    rewrite wrap_small by dlia. dlia.
Qed.

(** [mm_malloc] on a well-formed heap, for a size that does not wrap: the
    heap stays well formed (and coalesced), allocated blocks stay as they
    are, and a non-null result is an 8-aligned block that was not allocated
    before and whose size covers the request and its two tag words. *)
Lemma mm_malloc_ok fuel size s w p s' :
  heap_ok s w -> size_ok size ->
  mm_malloc fuel size s = Some (p, s') ->
  exists w',
    heap_ok s' w' /\
    (coalesced w -> coalesced w') /\
    (forall q sz, In (q, sz, 1) w -> In (q, sz, 1) w') /\
    (p <> NULL ->
     (forall sz, ~ In (p, sz, 1) w) /\ p mod 8 = 0 /\
     exists bsize, In (p, bsize, 1) w' /\ size + DSIZE <= bsize).
Proof.
  intros Hok Hsize. unfold mm_malloc.
  destruct (Z.eqb_spec size 0) as [Hz|Hz].
  { intros H. inversion H. subst. exists w.
    split; [exact Hok|]. split; [auto|]. split; [auto|].
    intros Hn. contradiction Hn. reflexivity. }
  destruct (adjusted_size_ok size Hsize Hz) as (Ha1 & Ha2 & Ha3).
  set (asize := adjusted_size size) in *. unfold DSIZE in Ha1, Ha2, Ha3.
  destruct (find_fit fuel asize s) as [bp|] eqn:Efit; [|discriminate].
  destruct (find_fit_ok _ _ _ _ _ Hok Efit) as [->|(cf & Hin & Hcf)].
  - (* no fit: grow *)
    cbn [Z.eqb NULL negb].
    pose proof (MAX_chunk_range asize) as Hn. cbv zeta in Hn.
    destruct Hn as (Hn1 & Hn2 & Hn3); [lia|exact Ha2|].
    set (n := MAX asize DEFAULT_CHUNKSIZE) in *.
    unfold DEFAULT_CHUNKSIZE in Hn1.
    destruct (mem_sbrk n s) as [[bp0 s1]|] eqn:Egrow.
    + destruct (extend_heap_ok s w n bp0 s1 Hok) as (Hok' & Hroot & rs & Hr & Hrs);
        [unfold DSIZE; lia|exact Hn2|exact Egrow|].
      destruct (extend_heap (n / WSIZE) s) as [r se]. cbn [fst snd] in *.
      set (we := coalesce w (mem_brk s) n []) in *.
      assert (forall q sz, In (q, sz, 1) w -> In (q, sz, 1) we) as Hkeep
        by (intros q sz Hq; apply In_alloc_coalesce; left; exact Hq).
      assert (coalesced w -> coalesced we) as Hco
        by (intros Hc; apply coalesced_coalesce; [exact Hc|reflexivity]).
      destruct (Z.eqb_spec r NULL) as [Er|Er].
      * intros H. inversion H. subst. exists we.
        split; [exact Hok'|]. split; [exact Hco|]. split; [exact Hkeep|].
        intros Hn. contradiction Hn. reflexivity.
      * intros H. inversion H. subst p s'. clear H.
        destruct (in_split _ _ Hr) as (w1 & w2 & Ew).
        exists (w1 ++ place r rs asize ++ w2). split; [|split; [|split]].
        -- apply handle_malloc_ok; [rewrite <- Ew; exact Hok'|unfold DSIZE; lia|exact Ha2].
        -- intros Hc. apply coalesced_place. rewrite <- Ew. auto.
        -- intros q sz Hq. apply In_alloc_place. rewrite <- Ew. auto.
        -- intros _. split; [|split].
           ++ intros sz Hq. apply Hkeep in Hq.
              destruct (blocks_at_unique _ _ _ _ _ _ _ _ _ (ok_blocks _ _ Hok') Hq Hr)
                as [_ K]. discriminate K.
           ++ destruct Hok' as [[Hl1 Hl2] _ _ Hb _ _].
              eapply blocks_at_aligned; [exact Hb| |exact Hr].
              unfold_macros. dlia.
           ++ unfold place. destruct (_ <? _).
              ** exists rs. split; [|unfold DSIZE; lia]. apply in_or_app. right. left.
                 reflexivity.
              ** exists asize. split; [|unfold DSIZE; lia]. apply in_or_app. right. left.
                 reflexivity.
    + rewrite extend_heap_request by (lia || assumption).
      rewrite Egrow. cbn [Z.eqb NULL].
      intros H. inversion H. subst. exists w.
      split; [exact Hok|]. split; [auto|]. split; [auto|].
      intros Hn. contradiction Hn. reflexivity.
  - (* the root fits *)
    assert (bp <> NULL) as Hbp.
    { destruct Hok as [[Hl1 Hl2] _ _ Hb _ _].
      destruct (blocks_at_In _ _ _ _ _ _ _ Hb Hin) as (_ & K & _).
      unfold_macros. lia. }
    destruct (Z.eqb_spec bp NULL) as [|_]; [contradiction|]. cbn [negb].
    intros H. inversion H. subst p s'. clear H.
    destruct (in_split _ _ Hin) as (w1 & w2 & Ew).
    exists (w1 ++ place bp cf asize ++ w2). split; [|split; [|split]].
    + apply handle_malloc_ok; [rewrite <- Ew; exact Hok|unfold DSIZE; lia|exact Ha2].
    + intros Hc. apply coalesced_place. rewrite <- Ew. exact Hc.
    + intros q sz Hq. apply In_alloc_place. rewrite <- Ew. exact Hq.
    + intros _. split; [|split].
      * intros sz Hq.
        destruct (blocks_at_unique _ _ _ _ _ _ _ _ _ (ok_blocks _ _ Hok) Hq Hin)
          as [_ K]. discriminate K.
      * destruct Hok as [[Hl1 Hl2] _ _ Hb _ _].
        eapply blocks_at_aligned; [exact Hb| |exact Hin].
        unfold_macros. dlia.
      * unfold place. destruct (_ <? _).
        -- exists cf. split; [|unfold DSIZE; lia]. apply in_or_app. right. left.
           reflexivity.
        -- exists asize. split; [|unfold DSIZE; lia]. apply in_or_app. right. left.
           reflexivity.
Qed.

(** On a well-formed heap two iterations of the search are enough for
    [mm_malloc] to return. *)
Lemma mm_malloc_total fuel size s w :
  heap_ok s w -> (2 <= fuel)%nat ->
  exists p s', mm_malloc fuel size s = Some (p, s').
Proof.
  intros Hok Hfuel. unfold mm_malloc. destruct (size =? 0); [eauto|].
  destruct (find_fit_total s w fuel (adjusted_size size) Hok Hfuel) as (r & ->).
  destruct (negb (r =? NULL)); [eauto|].
  destruct (extend_heap _ s) as [bp se]. destruct (bp =? NULL); eauto.
Qed.

Lemma memZ_In p l : memZ p l = true -> In p l.
Proof.
  induction l as [|q l IH]; cbn; [discriminate|].
  destruct (Z.eqb_spec q p) as [->|_]; cbn; auto.
Qed.

Lemma remove_first_In p q l :
  In q (remove_first p l) -> In q l.
Proof.
  induction l as [|x l IH]; cbn; [auto|].
  destruct (Z.eqb_spec x p); cbn; intuition.
Qed.

Lemma remove_first_NoDup p l :
  NoDup l -> NoDup (remove_first p l) /\ ~ In p (remove_first p l).
Proof.
  induction 1 as [|x l Hx Hl IH]; cbn.
  - split; [constructor|auto].
  - destruct (Z.eqb_spec x p) as [->|Hne].
    + auto.
    + destruct IH as [IH1 IH2]. split.
      * constructor; [|exact IH1]. intros Hin. apply Hx.
        eapply remove_first_In. exact Hin.
      * cbn. intros [E|Hin]; [contradiction|]. auto.
Qed.

(** One call keeps the client state well formed. *)
Lemma do_call_ok fuel c st st' :
  client_ok st -> call_ok c -> do_call fuel c st = Some st' -> client_ok st'.
Proof.
  destruct st as [s live]. intros (w & Hok & Hco & Hnd & Hlive) Hc.
  cbn [fst snd] in *. cbn [do_call]. destruct c as [size|bp].
  - destruct (mm_malloc fuel size s) as [[p s']|] eqn:E; [|discriminate].
    intros H. inversion H. subst st'. clear H.
    destruct (mm_malloc_ok _ _ _ _ _ _ Hok Hc E)
      as (w' & Hok' & Hco' & Hkeep & Hp).
    exists w'. cbn [fst snd]. split; [exact Hok'|]. split; [auto|].
    destruct (Z.eqb_spec p NULL) as [Ep|Ep].
    + split; [exact Hnd|]. intros q Hq. destruct (Hlive q Hq) as (sz & Hsz).
      eauto.
    + destruct (Hp Ep) as (Hnew & _ & bsize & Hin & _). split.
      * constructor; [|exact Hnd]. intros Hq.
        destruct (Hlive p Hq) as (sz & Hsz). exact (Hnew sz Hsz).
      * intros q [<-|Hq]; [eauto|]. destruct (Hlive q Hq) as (sz & Hsz).
        eauto.
  - destruct (memZ bp live) eqn:E; [|discriminate].
    intros H. inversion H. subst st'. clear H. apply memZ_In in E.
    destruct (Hlive bp E) as (size & Hin).
    destruct (in_split _ _ Hin) as (w1 & w2 & ->).
    exists (coalesce w1 bp size w2). cbn [fst snd].
    destruct (remove_first_NoDup bp live Hnd) as [Hnd' Hout].
    apply coalesced_app in Hco. destruct Hco as (Hc1 & Hc2 & _).
    apply coalesced_cons in Hc2. destruct Hc2 as (Hc2 & _).
    split; [apply mm_free_ok; exact Hok|].
    split; [apply coalesced_coalesce; assumption|].
    split; [exact Hnd'|].
    intros q Hq. assert (q <> bp) as Hne by (intros ->; contradiction).
    apply remove_first_In in Hq. destruct (Hlive q Hq) as (sz & Hsz).
    exists sz. apply In_alloc_coalesce. apply in_app_or in Hsz.
    destruct Hsz as [Hsz|[Hsz|Hsz]]; [left; exact Hsz| |right; exact Hsz].
    inversion Hsz. congruence.
Qed.

Lemma do_calls_ok fuel cs : forall st st',
  client_ok st -> Forall call_ok cs -> do_calls fuel cs st = Some st' ->
  client_ok st'.
Proof.
  induction cs as [|c cs IH]; intros st st' Hst Hcs; cbn [do_calls].
  - intros H. inversion H. subst. exact Hst.
  - inversion Hcs as [|? ? Hc Hcs']. subst.
    destruct (do_call fuel c st) as [st1|] eqn:E; [|discriminate].
    apply IH; [|exact Hcs']. eapply do_call_ok; eassumption.
Qed.

(** Every client state reached from a fresh region by [mm_init] and calls
    whose sizes do not wrap is well formed. *)
Lemma init_calls_client_ok s s0 fuel cs st :
  fresh s -> mm_init s = (0, s0) ->
  Forall call_ok cs -> do_calls fuel cs (s0, []) = Some st ->
  client_ok st.
Proof.
  intros Hs Hinit Hcs Hrun.
  eapply do_calls_ok; [|exact Hcs|exact Hrun].
  exists []. cbn [fst snd]. split; [eapply mm_init_ok; eassumption|].
  split; [reflexivity|]. split; [constructor|]. intros p [].
Qed.

Lemma heap_walk_firstn s w : forall bp fuel,
  blocks_at s bp w (mem_brk s) ->
  READ s (HDRP (mem_brk s)) = PACK 0 1 ->
  mem_brk s < 2 ^ 32 -> 0 <= bp ->
  heap_walk fuel s bp = firstn fuel w.
Proof.
  induction w as [|[[p size] a] w IH]; intros bp fuel H He Hmax Hbp;
    cbn in H.
  - subst bp. destruct fuel as [|fuel]; [reflexivity|].
    cbn [heap_walk firstn].
    destruct (tag_decode s (HDRP (mem_brk s)) 0 1) as [-> _];
      [lia|reflexivity|auto|exact He|]. reflexivity.
  - destruct H as (-> & Hb & Hw). pose proof (blocks_at_le _ _ _ _ Hw) as Hle.
    destruct fuel as [|fuel]; [reflexivity|]. cbn [heap_walk firstn].
    destruct Hb as (H1 & H2 & H3 & H4 & H5 & H6).
    unfold DSIZE in H1, H2.
    destruct (tag_decode s (HDRP bp) size a) as [Hs Ha];
      [lia|exact H2|exact H3|exact H4|].
    unfold NEXT_BLKP. fold (HDRP bp). rewrite Hs, Ha.
    destruct (Z.eqb_spec size 0); [lia|].
    apply f_equal. apply IH; try assumption; lia.
Qed.

Lemma heap_ok_walk s w fuel :
  heap_ok s w -> heap_walk fuel s (first_block s) = firstn fuel w.
Proof.
  intros [[Hl1 Hl2] [Hm1 Hm2] _ Hb He _].
  apply heap_walk_firstn; try assumption; [lia|].
  unfold first_block, WSIZE. lia.
Qed.

Lemma coalesced_firstn w : forall k, coalesced w -> coalesced (firstn k w).
Proof.
  induction w as [|b w IH]; intros k H.
  - rewrite firstn_nil. exact H.
  - destruct k as [|k]; [reflexivity|]. cbn [firstn].
    apply coalesced_cons in H. destruct H as [H1 H2].
    apply coalesced_cons. split; [apply IH; exact H1|].
    apply andb_false_iff in H2. apply andb_false_iff.
    destruct H2 as [H2|H2]; [left; exact H2|right].
    destruct w as [|b' w]; [destruct k; reflexivity|].
    destruct k; [reflexivity|exact H2].
Qed.

End Calls.

(** * Main results *)

Section Results.

(** C5.  For every free block [(bp, cf_size)] of a well-formed heap and
    every adjusted size [asize] (a multiple of 8) that fits it: if
    [cf_size - asize] is less than the minimum block size 16,
    [handle_malloc] allocates the entire block with its full size (header
    and footer [PACK(cf_size, 1)]); otherwise it marks the first [asize]
    bytes allocated (header and footer [PACK(asize, 1)], when there are any
    such bytes), formats the remaining [cf_size - asize] bytes as a free
    block (header and footer [PACK(cf_size - asize, 0)]) and inserts that
    block at the head of the free list (it is the root, its prev-link is
    null and, the list being empty once the candidate is unlinked, so is
    its next-link).  When [asize] is at least 16 the heap stays well
    formed, with the block replaced by [place]. *)
Theorem handle_malloc_split_rule : forall s w1 bp cf w2 asize,
  heap_ok s (w1 ++ (bp, cf, 0) :: w2) ->
  0 <= asize <= cf -> asize mod DSIZE = 0 ->
  let s' := handle_malloc bp asize s in
  (if cf - asize <? 2 * DSIZE then
     READ s' (HDRP bp) = PACK cf 1 /\
     READ s' (bp + cf - DSIZE) = PACK cf 1
   else
     let new_free := bp + asize in
     (0 < asize ->
      READ s' (HDRP bp) = PACK asize 1 /\
      READ s' (bp + asize - DSIZE) = PACK asize 1) /\
     READ s' (HDRP new_free) = PACK (cf - asize) 0 /\
     READ s' (new_free + (cf - asize) - DSIZE) = PACK (cf - asize) 0 /\
     FREE_LIST_ROOT s' = new_free /\
     READ s' (PREVP new_free) = NULL /\
     READ s' (NEXTP new_free) = NULL) /\
  (2 * DSIZE <= asize -> heap_ok s' (w1 ++ place bp cf asize ++ w2)).
Proof.
  intros s w1 bp cf w2 asize Hok Ha Ham s'. split.
  2:{ intros Hmin. apply handle_malloc_ok; [exact Hok|lia|exact Ham]. }
  subst s'. destruct Hok as [Hlo Hmax Hpro Hblk Hepi Hroot].
  apply blocks_at_app in Hblk. destruct Hblk as (mid & Hbef & Hblk).
  cbn in Hblk. destruct Hblk as (<- & Hb & Haft).
  pose proof (blocks_at_le _ _ _ _ Hbef) as Hle1.
  pose proof (blocks_at_le _ _ _ _ Haft) as Hle2.
  destruct Hb as (H1 & H2 & H3 & H4 & H5 & H6).
  destruct H6 as [H6 H7]; [reflexivity|]. unfold_macros.
  destruct (tag_decode s (bp - 4) cf 0) as [G _]; auto; try lia.
  unfold handle_malloc. cbv zeta. unfold HDRP, DSIZE, WSIZE. rewrite G.
  rewrite (fb_patching_null bp s) by assumption.
  rewrite (wrap_small (cf - asize)) by lia.
  change (8 * 2) with (2 * 8).
  destruct (Z.ltb_spec (cf - asize) (2 * 8)) as [Hrem|Hrem].
  - rewrite (FTRP_eval _ bp cf)
      by (unfold HDRP, WSIZE; apply GET_SIZE_WRITE_PACK; auto; lia).
    split; reads; apply wrap_PACK; auto; lia.
  - assert ((cf - asize) mod 8 = 0) as Hrm by dlia.
    rewrite (FTRP_eval _ bp asize)
      by (unfold HDRP, WSIZE; apply GET_SIZE_WRITE_PACK; auto; lia).
    unfold NEXT_BLKP, WSIZE.
    rewrite (GET_SIZE_WRITE_other (bp + asize - 8)) by dlia.
    rewrite GET_SIZE_WRITE_PACK by (auto; lia).
    rewrite (FTRP_eval _ (bp + asize) (cf - asize))
      by (unfold HDRP, WSIZE; apply GET_SIZE_WRITE_PACK; auto; lia).
    rewrite add_free_null by (left; reflexivity).
    cbv zeta. unfold_macros.
    split; [intros Hpos; assert (8 <= asize) by dlia|].
    all: repeat split; reads; try reflexivity; apply wrap_PACK; auto; lia.
Qed.

Lemma handle_malloc_split_rule_witness :
  let s' := handle_malloc 4128 24 (heap_after [Malloc 8]) in
  (if 4080 - 24 <? 2 * DSIZE then
     READ s' (HDRP 4128) = PACK 4080 1 /\
     READ s' (4128 + 4080 - DSIZE) = PACK 4080 1
   else
     let new_free := 4128 + 24 in
     (0 < 24 ->
      READ s' (HDRP 4128) = PACK 24 1 /\
      READ s' (4128 + 24 - DSIZE) = PACK 24 1) /\
     READ s' (HDRP new_free) = PACK (4080 - 24) 0 /\
     READ s' (new_free + (4080 - 24) - DSIZE) = PACK (4080 - 24) 0 /\
     FREE_LIST_ROOT s' = new_free /\
     READ s' (PREVP new_free) = NULL /\
     READ s' (NEXTP new_free) = NULL) /\
  (2 * DSIZE <= 24 ->
   heap_ok s' ([(4112, 16, 1)] ++ place 4128 4080 24 ++ [])).
Proof.
  apply (handle_malloc_split_rule (heap_after [Malloc 8])
           [(4112, 16, 1)] 4128 4080 [] 24).
  - check_heap. right. exists 4080. right. left. reflexivity.
  - lia.
  - reflexivity.
Defined.

(** C6.  In a well-formed heap, for every pair of address-adjacent
    allocated blocks [(p, a)] and [(q, b)] whose other neighbours are
    allocated (blocks or sentinels), freeing both, in either order, leaves
    a well-formed heap in which the two are replaced by the single free
    block [(p, a + b)] at the lower block's address; the address-order walk
    of either final heap is that block sequence. *)
Theorem free_adjacent_pair : forall s w1 p a q b w2,
  heap_ok s (w1 ++ (p, a, 1) :: (q, b, 1) :: w2) ->
  is_free (last w1 sentinel) = false ->
  is_free (hd sentinel w2) = false ->
  let w' := w1 ++ (p, a + b, 0) :: w2 in
  let s_pq := mm_free q (mm_free p s) in
  let s_qp := mm_free p (mm_free q s) in
  heap_ok s_pq w' /\ heap_ok s_qp w' /\
  (forall fuel, (length w' <= fuel)%nat ->
     heap_walk fuel s_pq (first_block s_pq) = w' /\
     heap_walk fuel s_qp (first_block s_qp) = w').
Proof.
  intros s w1 p a q b w2 Hok Hprev Hnext w' s_pq s_qp.
  unfold is_free in Hprev, Hnext.
  assert (heap_ok s_pq w') as H1.
  { subst s_pq w'.
    pose proof (mm_free_ok s w1 p a ((q, b, 1) :: w2) Hok) as Hp.
    unfold coalesce in Hp. cbv zeta in Hp. rewrite Hprev in Hp.
    cbn [hd blk_alloc snd Z.eqb negb andb] in Hp.
    change (w1 ++ (p, a, 0) :: (q, b, 1) :: w2)
      with (w1 ++ [(p, a, 0)] ++ (q, b, 1) :: w2) in Hp.
    rewrite app_assoc in Hp. apply mm_free_ok in Hp.
    unfold coalesce in Hp. cbv zeta in Hp.
    rewrite last_last, removelast_last, Hnext in Hp.
    cbn [blk_alloc blk_bp blk_size fst snd Z.eqb negb andb] in Hp.
    replace (b + a) with (a + b) in Hp by lia. exact Hp. }
  assert (heap_ok s_qp w') as H2.
  { subst s_qp w'.
    change (w1 ++ (p, a, 1) :: (q, b, 1) :: w2)
      with (w1 ++ [(p, a, 1)] ++ (q, b, 1) :: w2) in Hok.
    rewrite app_assoc in Hok.
    pose proof (mm_free_ok s _ q b w2 Hok) as Hq.
    unfold coalesce in Hq. cbv zeta in Hq. rewrite last_last, Hnext in Hq.
    cbn [blk_alloc snd Z.eqb negb andb] in Hq.
    rewrite <- app_assoc in Hq. cbn [app] in Hq. apply mm_free_ok in Hq.
    unfold coalesce in Hq. cbv zeta in Hq. rewrite Hprev in Hq.
    cbn [hd tl blk_alloc blk_size fst snd Z.eqb negb andb] in Hq. exact Hq. }
  split; [exact H1|]. split; [exact H2|].
  intros fuel Hfuel.
  rewrite (heap_ok_walk _ _ fuel H1), (heap_ok_walk _ _ fuel H2).
  rewrite firstn_all2 by exact Hfuel. auto.
Qed.

Lemma free_adjacent_pair_witness :
  let s := heap_after [Malloc 8; Malloc 8; Malloc 8] in
  let w' := [] ++ (4112, 16 + 16, 0) :: [(4144, 16, 1); (4160, 4048, 0)] in
  let s_pq := mm_free 4128 (mm_free 4112 s) in
  let s_qp := mm_free 4112 (mm_free 4128 s) in
  heap_ok s_pq w' /\ heap_ok s_qp w' /\
  (forall fuel, (length w' <= fuel)%nat ->
     heap_walk fuel s_pq (first_block s_pq) = w' /\
     heap_walk fuel s_qp (first_block s_qp) = w').
Proof.
  apply (free_adjacent_pair (heap_after [Malloc 8; Malloc 8; Malloc 8])
           [] 4112 16 4128 16 [(4144, 16, 1); (4160, 4048, 0)]).
  - check_heap. right. exists 4048. right. right. right. left. reflexivity.
  - reflexivity.
  - reflexivity.
Defined.

(** ** Calls whose sizes do not wrap

    The two results below show that the failures of C3 and C4 come from the
    wrap-around of the adjusted size alone: for request sizes up to
    2^32 - 16 every reachable heap is well formed and coalesced, and every
    block returned is aligned and large enough. *)

(** X13.  Every client state reached from a fresh region by [mm_init] and
    calls whose sizes do not wrap is well formed: the tags tile the heap,
    no two free blocks are adjacent, and the client's pointers are distinct
    allocated blocks. *)
Theorem calls_keep_client_ok : forall s s0 fuel cs st,
  fresh s -> mm_init s = (0, s0) ->
  Forall call_ok cs -> do_calls fuel cs (s0, []) = Some st ->
  client_ok st.
Proof.
  intros s s0 fuel cs st. apply init_calls_client_ok.
Qed.

Lemma calls_keep_client_ok_witness :
  client_ok (heap_after [Malloc 8; Malloc 24; Free 4112], [4128]).
Proof.
  apply (calls_keep_client_ok (fresh_heap 4096 16384) (init_heap 4096 16384)
           2 [Malloc 8; Malloc 24; Free 4112]).
  - vm_compute. repeat split; discriminate.
  - vm_compute. reflexivity.
  - repeat constructor; unfold DSIZE; lia.
  - vm_compute. reflexivity.
Defined.

(** X14.  In every such state an address-order walk finds no two
    consecutive free blocks. *)
Theorem no_adjacent_free_without_wrap : forall s s0 fuel cs st k,
  fresh s -> mm_init s = (0, s0) ->
  Forall call_ok cs -> do_calls fuel cs (s0, []) = Some st ->
  adjacent_free (heap_walk k (fst st) (first_block (fst st))) = false.
Proof.
  intros s s0 fuel cs st k Hs Hinit Hcs Hrun.
  destruct (init_calls_client_ok _ _ _ _ _ Hs Hinit Hcs Hrun)
    as (w & Hok & Hco & _).
  rewrite (heap_ok_walk _ _ k Hok). apply coalesced_firstn. exact Hco.
Qed.

Lemma no_adjacent_free_without_wrap_witness :
  let st : client :=
    (heap_after [Malloc 8; Malloc 8; Free 4112; Free 4128], []) in
  adjacent_free (heap_walk 8 (fst st) (first_block (fst st))) = false.
Proof.
  intros st.
  apply (no_adjacent_free_without_wrap (fresh_heap 4096 16384)
           (init_heap 4096 16384) 2 [Malloc 8; Malloc 8; Free 4112; Free 4128]
           st 8).
  - vm_compute. repeat split; discriminate.
  - vm_compute. reflexivity.
  - repeat constructor; unfold DSIZE; lia.
  - vm_compute. reflexivity.
Defined.

(** X15.  On a well-formed heap, for a size that does not wrap, a
    successful [mm_malloc] returns an 8-aligned pointer to a block whose
    payload holds at least [size] bytes. *)
Theorem mm_malloc_aligned_and_large_enough : forall fuel size s w p s',
  heap_ok s w -> size_ok size ->
  mm_malloc fuel size s = Some (p, s') -> p <> NULL ->
  p mod 8 = 0 /\ size <= GET_SIZE s' (HDRP p) - DSIZE.
Proof.
  intros fuel size s w p s' Hok Hsize Hm Hp.
  destruct (mm_malloc_ok _ _ _ _ _ _ Hok Hsize Hm) as (w' & Hok' & _ & _ & H).
  destruct (H Hp) as (_ & Hal & bsize & Hin & Hb). split; [exact Hal|].
  destruct Hok' as [[Hl1 Hl2] [Hm1 Hm2] _ Hblk _ _].
  destruct (blocks_at_In _ _ _ _ _ _ _ Hblk Hin) as (Hbk & K1 & K2).
  destruct Hbk as (H1 & H2 & H3 & H4 & _).
  unfold first_block, WSIZE, DSIZE in *.
  destruct (tag_decode s' (HDRP p) bsize 1) as [-> _]; auto; lia.
Qed.

Lemma mm_malloc_aligned_and_large_enough_witness :
  4128 mod 8 = 0 /\
  20 <= GET_SIZE (heap_after [Malloc 8; Malloc 20]) (HDRP 4128) - DSIZE.
Proof.
  apply (mm_malloc_aligned_and_large_enough 2 20 (heap_after [Malloc 8])
           [(4112, 16, 1); (4128, 4080, 0)] 4128
           (heap_after [Malloc 8; Malloc 20])).
  - check_heap. right. exists 4080. right. left. reflexivity.
  - unfold size_ok, DSIZE. lia.
  - vm_compute. reflexivity.
  - discriminate.
Defined.

(** A call on a well-formed client state returns, given two iterations of
    fuel and, for [mm_free], a pointer the client holds. *)
Lemma do_call_total fuel c st :
  client_ok st -> (2 <= fuel)%nat ->
  match c with Malloc _ => True | Free bp => In bp (snd st) end ->
  exists st', do_call fuel c st = Some st'.
Proof.
  destruct st as [s live]. intros (w & Hok & _) Hfuel Hc.
  cbn [fst snd] in *. cbn [do_call]. destruct c as [size|bp].
  - destruct (mm_malloc_total fuel size s w Hok Hfuel) as (p & s' & ->).
    eauto.
  - assert (memZ bp live = true) as ->; [|eauto].
    induction live as [|q live IH]; [contradiction|]. cbn.
    destruct Hc as [->|Hc]; [rewrite Z.eqb_refl; reflexivity|].
    rewrite IH by exact Hc. apply orb_true_r.
Qed.

(** A store into the payload of an allocated block keeps the heap well
    formed. *)
Lemma payload_write_ok s w p size x v :
  heap_ok s w -> In (p, size, 1) w -> p <= x < p + size - DSIZE ->
  heap_ok (WRITE x v s) w.
Proof.
  intros [Hlo Hmax Hpro Hblk Hepi Hroot] Hin Hx.
  destruct (in_split _ _ Hin) as (w1 & w2 & ->).
  apply blocks_at_app in Hblk. destruct Hblk as (mid & Hbef & Hblk).
  cbn in Hblk. destruct Hblk as (<- & Hb & Haft).
  pose proof (blocks_at_le _ _ _ _ Hbef) as Hle1.
  pose proof (blocks_at_le _ _ _ _ Haft) as Hle2.
  destruct Hb as (H1 & H2 & H3 & H4 & H5 & H6). unfold_macros.
  constructor; unfold_macros;
    cbn [mem_heap_lo mem_brk mem_max_addr FREE_LIST_ROOT WRITE set_mem].
  - exact Hlo.
  - exact Hmax.
  - reads. exact Hpro.
  - apply blocks_at_app. exists p. split.
    + eapply blocks_at_frame; [|exact Hbef]. intros y Hy. reads. reflexivity.
    + cbn. split; [reflexivity|]. split.
      * unfold_macros. repeat split; auto; try lia; try discriminate.
        -- reads. exact H4.
        -- reads. exact H5.
      * eapply blocks_at_frame; [|exact Haft]. intros y Hy. reads.
        reflexivity.
  - reads. exact Hepi.
  - exact Hroot.
Qed.

End Results.

(** * The list operations on lists of any length *)

Section Chains.

Lemma chain_frame s s' l : forall prev next,
  (forall b, In b l -> READ s' (PREVP b) = READ s (PREVP b) /\
                       READ s' (NEXTP b) = READ s (NEXTP b)) ->
  chain s prev l next -> chain s' prev l next.
Proof.
  induction l as [|b l IH]; intros prev next Hf H; cbn in *; [exact I|].
  destruct H as (H1 & H2 & H3 & H4).
  destruct (Hf b (or_introl eq_refl)) as [E1 E2]. rewrite E1, E2.
  repeat split; auto.
Qed.

Lemma last_cons (l : list Z) : forall b d, last (b :: l) d = last l b.
Proof.
  induction l as [|c l IH]; intros b d; [reflexivity|].
  change (last (b :: c :: l) d) with (last (c :: l) d).
  rewrite (IH c d), (IH c b). reflexivity.
Qed.

Lemma chain_app s l1 : forall l2 prev next,
  chain s prev (l1 ++ l2) next <->
  chain s prev l1 (hd next l2) /\ chain s (last l1 prev) l2 next.
Proof.
  induction l1 as [|b l1 IH]; intros l2 prev next.
  - cbn. tauto.
  - change ((b :: l1) ++ l2) with (b :: (l1 ++ l2)). cbn [chain].
    rewrite IH.
    assert (hd next (l1 ++ l2) = hd (hd next l2) l1) as ->
      by (destruct l1; reflexivity).
    rewrite last_cons.
    tauto.
Qed.

(** The walk of a chained list returns it. *)
Lemma chain_walk s l : forall prev fuel,
  chain s prev l NULL -> (length l < fuel)%nat ->
  list_walk fuel s (hd NULL l) = Some l.
Proof.
  induction l as [|b l IH]; intros prev fuel H Hfuel.
  - destruct fuel; [inversion Hfuel|]. reflexivity.
  - destruct fuel as [|fuel]; [inversion Hfuel|]. cbn [hd list_walk].
    cbn in H. destruct H as (H1 & H2 & H3 & H4).
    destruct (Z.eqb_spec b NULL); [contradiction|].
    rewrite H3, (IH b) by (assumption || (cbn in Hfuel; lia)). reflexivity.
Qed.

Lemma wrap_READ s p : wrap (READ s p) = READ s p.
Proof. apply wrap_small. apply wrap_range. Qed.

End Chains.
Section Unlink.

Ltac reads8 :=
  repeat first
    [ rewrite READ_set_root
    | rewrite READ_WRITE_same
    | rewrite READ_WRITE_other by dlia ].

Lemma separate_In l b : separate l -> In b l -> b mod 8 = 0.
Proof.
  intros [_ H] Hin. rewrite Forall_forall in H. exact (H b Hin).
Qed.

Lemma hd_app_cons (l1 : list Z) b l2 d : hd d (l1 ++ b :: l2) = hd b l1.
Proof. destruct l1; reflexivity. Qed.

(** X3.  [fb_patching] removes a block from a doubly linked free list of
    any length: when the list of [s] is [l1 ++ bp :: l2] (distinct, aligned
    blocks), the list after [fb_patching(bp)] is [l1 ++ l2], with prev- and
    next-links and the root patched, and walking it from the root returns
    [l1 ++ l2]. *)
Theorem fb_patching_unlinks : forall s l1 bp l2,
  free_list_is s (l1 ++ bp :: l2) -> separate (l1 ++ bp :: l2) ->
  free_list_is (fb_patching bp s) (l1 ++ l2) /\
  free_list (S (length (l1 ++ l2))) (fb_patching bp s) = Some (l1 ++ l2).
Proof.
  intros s l1 bp l2 [Hroot Hchain] Hsep.
  assert (free_list_is (fb_patching bp s) (l1 ++ l2)) as Hres.
  2:{ split; [exact Hres|]. destruct Hres as [Hr Hc]. unfold free_list.
      rewrite Hr. eapply chain_walk; [exact Hc|]. lia. }
  apply chain_app in Hchain. destruct Hchain as [Hc1 Hc2].
  cbn [hd chain] in Hc1, Hc2. destruct Hc2 as (Hbp & Hprev & Hnext & Hc2).
  assert (Hal := fun b Hb => separate_In _ b Hsep Hb).
  destruct Hsep as [Hnd _]. apply NoDup_remove in Hnd. destruct Hnd as [Hnd Hnotin].
  assert (wrap (READ s (bp + 4)) = READ s (bp + 4)) as Wp by apply wrap_READ.
  assert (wrap (READ s bp) = READ s bp) as Wn by apply wrap_READ.
  unfold_macros. rewrite Hprev in Wp. rewrite Hnext in Wn.
  assert (forall c, In c (l1 ++ l2) -> c <> bp /\ c mod 8 = 0) as Hc.
  { intros c Hin. split; [intros ->; contradiction|].
    apply Hal. apply in_app_or in Hin. apply in_or_app.
    destruct Hin; [left|right; right]; assumption. }
  unfold fb_patching. unfold_macros. rewrite Hprev, Hnext.
  destruct (snoc_cases _ l1) as [-> | (l1' & p & ->)];
    destruct l2 as [|n l2']; cbn [last hd app] in *.
  - (* the only block *)
    cbn. split; [reflexivity|exact I].
  - (* the root, with a successor *)
    destruct Hc2 as (Hn & Hnp & Hnn & Hc2).
    destruct (Hc n (or_introl eq_refl)) as [_ Han].
    apply NoDup_cons_iff in Hnd. destruct Hnd as [Hn2 _].
    destruct (Z.eqb_spec n 0) as [|_]; [contradiction|]. cbn [Z.eqb negb].
    split; [reflexivity|]. cbn [chain]. unfold_macros.
    split; [exact Hn|]. split; [reads8; reflexivity|].
    split; [reads8; exact Hnn|].
    eapply chain_frame; [|exact Hc2]. intros c Hin.
    destruct (Hc c (or_intror Hin)) as [_ Hac].
    assert (c <> n) by (intros ->; contradiction).
    unfold_macros. split; reads8; reflexivity.
  - (* the last block, with a predecessor *)
    rewrite app_nil_r in *. rewrite last_last in *.
    apply chain_app in Hc1. destruct Hc1 as [Hc1 Hcp]. rewrite last_last in Hcp || idtac.
    cbn [hd chain] in Hc1, Hcp. destruct Hcp as (Hp & Hpp & Hpn & _).
    destruct (Hc p) as [Hpb Hap]; [apply in_or_app; right; left; reflexivity|].
    apply NoDup_remove in Hnd. destruct Hnd as [_ Hp2]. rewrite app_nil_r in Hp2.
    destruct (Z.eqb_spec p 0) as [|_]; [contradiction|]. cbn [Z.eqb negb].
    rewrite hd_app_cons in Hroot.
    split; [cbn [FREE_LIST_ROOT WRITE set_mem]; rewrite Hroot;
            destruct l1'; reflexivity|].
    apply chain_app. cbn [hd chain]. unfold_macros. split.
    + eapply chain_frame; [|exact Hc1]. intros c Hin.
      assert (c <> p) by (intros ->; contradiction).
      destruct (Hc c) as [_ Hac]; [apply in_or_app; left; exact Hin|].
      unfold_macros. split; reads8; reflexivity.
    + split; [exact Hp|]. split; [reads8; exact Hpp|].
      split; [reads8; reflexivity|exact I].
  - (* in the middle *)
    rewrite last_last in *.
    apply chain_app in Hc1. destruct Hc1 as [Hc1 Hcp].
    cbn [hd chain] in Hc1, Hcp. destruct Hcp as (Hp & Hpp & Hpn & _).
    destruct Hc2 as (Hn & Hnp & Hnn & Hc2).
    destruct (Hc p) as [Hpb Hap];
      [apply in_or_app; left; apply in_or_app; right; left; reflexivity|].
    destruct (Hc n) as [Hnb Han]; [apply in_or_app; right; left; reflexivity|].
    rewrite <- app_assoc in Hnd. cbn [app] in Hnd.
    pose proof (NoDup_remove_2 _ _ _ Hnd) as Hp2.
    apply NoDup_remove_1 in Hnd.
    apply NoDup_remove in Hnd. destruct Hnd as [Hnd Hn2].
    destruct (Z.eqb_spec p 0) as [|_]; [contradiction|].
    destruct (Z.eqb_spec n 0) as [|_]; [contradiction|]. cbn [negb].
    assert (p <> n) as Hpn'.
    { intros ->. apply Hp2. apply in_or_app. right. left. reflexivity. }
    rewrite hd_app_cons in Hroot.
    split; [cbn [FREE_LIST_ROOT WRITE set_mem]; rewrite Hroot;
            destruct l1'; reflexivity|].
    rewrite <- app_assoc. cbn [app].
    apply chain_app. cbn [hd chain]. unfold_macros. split.
    + eapply chain_frame; [|exact Hc1]. intros c Hin.
      assert (c <> p) by (intros ->; apply Hp2; apply in_or_app; left; exact Hin).
      assert (c <> n) by (intros ->; apply Hn2; apply in_or_app; left; exact Hin).
      destruct (Hc c) as [_ Hac];
        [apply in_or_app; left; apply in_or_app; left; exact Hin|].
      unfold_macros. split; reads8; reflexivity.
    + split; [exact Hp|]. split; [reads8; exact Hpp|].
      split; [reads8; exact Wn|].
      split; [exact Hn|]. split; [reads8; exact Wp|].
      split; [reads8; exact Hnn|].
      eapply chain_frame; [|exact Hc2]. intros c Hin.
      assert (c <> p) by (intros ->; apply Hp2; apply in_or_app; right; right; exact Hin).
      assert (c <> n) by (intros ->; apply Hn2; apply in_or_app; right; exact Hin).
      destruct (Hc c) as [_ Hac]; [apply in_or_app; right; right; exact Hin|].
      unfold_macros. split; reads8; reflexivity.
Qed.

End Unlink.
Section Insert.

Ltac reads8 :=
  repeat first
    [ rewrite READ_set_root
    | rewrite READ_WRITE_same
    | rewrite READ_WRITE_other by dlia ].

(** X4.  [add_free] on a doubly linked free list of any length: when the
    list of [s] is [l] and [bp] is a non-null, aligned block outside it,
    the list after [add_free(bp)] is [bp] followed by the tail of [l]: [bp]
    is the new root, linked to the successor of the old head, and the old
    head itself is no longer on the list.  On the empty list the result is
    [[bp]]. *)
Theorem add_free_replaces_head : forall s l bp,
  free_list_is s l -> separate (bp :: l) ->
  bp <> NULL -> 0 <= bp < 2 ^ 32 ->
  free_list_is (add_free bp s) (bp :: tl l) /\
  free_list (S (length (bp :: tl l))) (add_free bp s) = Some (bp :: tl l).
Proof.
  intros s l bp [Hroot Hchain] [Hnd Hal] Hbp Hrange.
  assert (free_list_is (add_free bp s) (bp :: tl l)) as Hres.
  2:{ split; [exact Hres|]. destruct Hres as [Hr Hc]. unfold free_list.
      rewrite Hr. eapply chain_walk; [exact Hc|]. lia. }
  rewrite Forall_forall in Hal.
  assert (Habp := Hal bp (or_introl eq_refl)).
  apply NoDup_cons_iff in Hnd. destruct Hnd as [Hout Hnd].
  unfold add_free.
  change (FREE_LIST_ROOT (WRITE (PREVP bp) NULL s)) with (FREE_LIST_ROOT s).
  rewrite Hroot. unfold_macros.
  destruct l as [|h t]; cbn [hd tl].
  - cbn [Z.eqb negb]. split; [reflexivity|]. cbn [chain hd]. unfold_macros.
    repeat split; auto; reads8; reflexivity.
  - cbn [chain] in Hchain. destruct Hchain as (Hh & _ & Hhn & Hct).
    assert (Hah := Hal h (or_intror (or_introl eq_refl))).
    assert (h <> bp) as Hhb by (intros ->; apply Hout; left; reflexivity).
    apply NoDup_cons_iff in Hnd. destruct Hnd as [Hht Hnd].
    destruct (Z.eqb_spec h 0) as [|_]; [contradiction|]. cbn [negb].
    unfold_macros. rewrite (READ_WRITE_other (bp + 4)) by dlia. rewrite Hhn.
    destruct t as [|n t']; cbn [hd].
    + cbn [Z.eqb negb]. split; [reflexivity|]. cbn [chain hd]. unfold_macros.
      repeat split; auto; reads8; reflexivity.
    + cbn [chain] in Hct. destruct Hct as (Hn & _ & Hnn & Hct).
      assert (Han := Hal n (or_intror (or_intror (or_introl eq_refl)))).
      assert (n <> bp) as Hnb
        by (intros ->; apply Hout; right; left; reflexivity).
      apply NoDup_cons_iff in Hnd. destruct Hnd as [Hnt Hnd].
      assert (wrap n = n) as Wn.
      { replace n with (READ s h) by exact Hhn. apply wrap_READ. }
      destruct (Z.eqb_spec n 0) as [|_]; [contradiction|]. cbn [negb].
      split; [reflexivity|]. cbn [chain hd]. unfold_macros.
      split; [exact Hbp|]. split; [reads8; reflexivity|].
      split; [reads8; exact Wn|]. split; [exact Hn|].
      split; [reads8; apply wrap_small; exact Hrange|].
      split; [reads8; exact Hnn|].
      eapply chain_frame; [|exact Hct]. intros c Hin.
      assert (Hac := Hal c (or_intror (or_intror (or_intror Hin)))).
      assert (c <> bp) by (intros ->; apply Hout; right; right; exact Hin).
      assert (c <> n) by (intros ->; contradiction).
      unfold_macros. split; reads8; reflexivity.
Qed.

End Insert.

Section FirstFit.

(** X1.  [find_fit] is a first-fit search: when the list walked from the
    root is [l], the search returns the first block of [l] whose size is at
    least [asize] (every block before it is smaller), and NULL when every
    block of [l] is smaller.  It returns within the fuel that walks [l]. *)
Theorem find_fit_first_fit : forall fuel s asize l,
  free_list fuel s = Some l ->
  exists r,
    find_fit fuel asize s = Some r /\
    ((r = NULL /\ Forall (fun b => GET_SIZE s (HDRP b) < asize) l) \/
     exists l1 l2,
       l = l1 ++ r :: l2 /\
       Forall (fun b => GET_SIZE s (HDRP b) < asize) l1 /\
       asize <= GET_SIZE s (HDRP r)).
Proof.
  intros fuel s asize. unfold free_list, find_fit.
  generalize (FREE_LIST_ROOT s) as curr.
  induction fuel as [|fuel IH]; intros curr l Hw; [discriminate|].
  cbn [list_walk find_fit_loop] in *.
  destruct (Z.eqb_spec curr NULL) as [->|Hc]; cbn [negb].
  - inversion Hw. subst l. exists NULL. split; [reflexivity|]. left. auto.
  - destruct (list_walk fuel s (READ s (NEXTP curr))) as [l'|] eqn:E;
      [|discriminate].
    cbn in Hw. inversion Hw. subst l. clear Hw.
    destruct (Z.ltb_spec (GET_SIZE s (HDRP curr)) asize) as [Hlt|Hge].
    + destruct (IH _ _ E) as (r & Hr & Hcase). exists r. split; [exact Hr|].
      destruct Hcase as [[-> Hall]|(l1 & l2 & -> & Hall & Hfit)].
      * left. split; [reflexivity|]. constructor; assumption.
      * right. exists (curr :: l1), l2. split; [reflexivity|].
        split; [constructor; assumption|exact Hfit].
    + exists curr. split; [reflexivity|]. right. exists [], l'.
      split; [reflexivity|]. split; [constructor|exact Hge].
Qed.

End FirstFit.
Section ChainExamples.

Ltac check_list :=
  split; [reflexivity|];
  cbn [chain hd]; vm_compute;
  repeat first [ split | reflexivity | (intros; discriminate) ].

Ltac check_separate :=
  split;
  [ repeat (constructor; [cbn [In]; intros H;
                          repeat (destruct H as [H|H]; try discriminate H);
                          exact H|]);
    constructor
  | repeat constructor ].

Lemma fb_patching_unlinks_witness :
  free_list_is (fb_patching 4144 three_free_blocks) ([4112] ++ [4176]) /\
  free_list (S (length ([4112] ++ [4176]))) (fb_patching 4144 three_free_blocks)
  = Some ([4112] ++ [4176]).
Proof.
  apply (fb_patching_unlinks three_free_blocks [4112] 4144 [4176]).
  - check_list.
  - check_separate.
Defined.

Lemma add_free_replaces_head_witness :
  free_list_is (add_free 4208 three_free_blocks)
    (4208 :: tl [4112; 4144; 4176]) /\
  free_list (S (length (4208 :: tl [4112; 4144; 4176])))
    (add_free 4208 three_free_blocks)
  = Some (4208 :: tl [4112; 4144; 4176]).
Proof.
  apply (add_free_replaces_head three_free_blocks [4112; 4144; 4176] 4208).
  - check_list.
  - check_separate.
  - discriminate.
  - lia.
Defined.

Lemma find_fit_first_fit_witness :
  exists r,
    find_fit 4 24 three_free_blocks = Some r /\
    ((r = NULL /\
      Forall (fun b => GET_SIZE three_free_blocks (HDRP b) < 24)
        [4112; 4144; 4176]) \/
     exists l1 l2,
       [4112; 4144; 4176] = l1 ++ r :: l2 /\
       Forall (fun b => GET_SIZE three_free_blocks (HDRP b) < 24) l1 /\
       24 <= GET_SIZE three_free_blocks (HDRP r)).
Proof.
  apply (find_fit_first_fit 4 three_free_blocks 24 [4112; 4144; 4176]).
  reflexivity.
Defined.

End ChainExamples.

(** * Freeing and reusing blocks *)

Section FreeReuse.

(** The block [handle_free] returns: the previous block when that one is
    free, the block itself otherwise. *)
Lemma handle_free_returns s w1 bp size w2 :
  pending_free s w1 bp size w2 ->
  fst (handle_free bp s)
  = if is_free (last w1 sentinel) then blk_bp (last w1 sentinel) else bp.
Proof.
  intros Hpf.
  destruct (handle_free_reads _ _ _ _ _ Hpf)
    as (pb & ps & pa & ns & na & Hprev & Hnext & Hpalloc & Hnalloc & _ & _
        & _ & _ & _ & _ & _ & _ & _ & _ & Hpa & Hna & Hlast & _ & Hw1 & _).
  unfold handle_free. cbv zeta. rewrite Hprev, Hnext, Hpalloc, Hnalloc.
  unfold is_free. rewrite Hlast.
  destruct Hpa as [->| ->], Hna as [->| ->]; cbn [Z.eqb negb andb fst];
    try reflexivity;
    destruct (Hw1 eq_refl) as (w1' & ->); rewrite last_last; reflexivity.
Qed.

(** [mm_free] on an allocated block: clearing the allocation bit in both
    tags leaves a pending free block, which [handle_free] then coalesces. *)
Lemma mm_free_pending s w1 bp size w2 :
  heap_ok s (w1 ++ (bp, size, 1) :: w2) ->
  exists s2,
    mm_free bp s = snd (handle_free bp s2) /\
    pending_free s2 w1 bp size w2 /\
    (forall x, x <> bp - 4 -> x <> bp + size - 8 -> READ s2 x = READ s x) /\
    same_region s s2.
Proof.
  intros [Hlo Hmax Hpro Hblk Hepi Hroot].
  apply blocks_at_app in Hblk. destruct Hblk as (mid & Hbef & Hblk).
  cbn in Hblk. destruct Hblk as (<- & Hb & Haft).
  pose proof (blocks_at_le _ _ _ _ Hbef) as Hle1.
  pose proof (blocks_at_le _ _ _ _ Haft) as Hle2.
  destruct Hb as (H1 & H2 & H3 & H4 & H5 & H6). unfold_macros.
  destruct (tag_decode s (bp - 4) size 1) as [G _]; auto; try lia.
  exists (WRITE (bp + size - 8) (PACK size 0) (WRITE (bp - 4) (PACK size 0) s)).
  split; [|split; [|split]].
  - unfold mm_free. cbv zeta. unfold HDRP, WSIZE. rewrite G.
    rewrite (FTRP_eval _ bp size)
      by (unfold HDRP, WSIZE; apply GET_SIZE_WRITE_PACK; auto; lia).
    reflexivity.
  - constructor; unfold_macros;
      cbn [mem_heap_lo mem_brk mem_max_addr FREE_LIST_ROOT WRITE set_mem].
    + exact Hlo.
    + exact Hmax.
    + reads. exact Hpro.
    + eapply blocks_at_frame; [|exact Hbef]. intros x Hx. reads. reflexivity.
    + auto.
    + split; reads; apply wrap_PACK; auto; lia.
    + eapply blocks_at_frame; [|exact Haft]. intros x Hx. reads. reflexivity.
    + reads. exact Hepi.
    + destruct Hroot as [Hr|(rs & Hr)]; [left; exact Hr|]. right. exists rs.
      apply in_app_or in Hr. apply in_or_app.
      destruct Hr as [Hr|[Hr|Hr]];
        [left; exact Hr|discriminate Hr|right; exact Hr].
  - intros x Hx1 Hx2. reads. reflexivity.
  - repeat split.
Qed.

(** X8.  [mm_free] of any allocated block of a well-formed heap coalesces
    it with its free neighbours (the four cases of [handle_free]): the heap
    stays well formed with the block sequence [coalesce w1 bp size w2], the
    merged block becomes the root of the free list (it starts at the
    previous block when that one was free, at [bp] otherwise) and is the
    only block on the list, and the address-order walk returns the new
    sequence. *)
Theorem mm_free_coalesces : forall s w1 bp size w2,
  heap_ok s (w1 ++ (bp, size, 1) :: w2) ->
  let s' := mm_free bp s in
  let w' := coalesce w1 bp size w2 in
  heap_ok s' w' /\
  FREE_LIST_ROOT s'
  = (if is_free (last w1 sentinel) then blk_bp (last w1 sentinel) else bp) /\
  free_list 2 s' = Some [FREE_LIST_ROOT s'] /\
  (forall fuel, (length w' <= fuel)%nat ->
     heap_walk fuel s' (first_block s') = w').
Proof.
  intros s w1 bp size w2 Hok s' w'.
  destruct (mm_free_pending _ _ _ _ _ Hok) as (s2 & E & Hpf & _ & _ & Hb2 & _).
  destruct (handle_free_ok _ _ _ _ _ Hpf) as (Hok' & Hroot & rs & Hin & _).
  pose proof (handle_free_returns _ _ _ _ _ Hpf) as Hret.
  subst s' w'. rewrite E. split; [exact Hok'|].
  split; [rewrite Hroot; exact Hret|]. split.
  - rewrite (free_list_at_most_root _ _ Hok').
    destruct (Z.eqb_spec (FREE_LIST_ROOT (snd (handle_free bp s2))) NULL)
      as [E0|_]; [|reflexivity].
    exfalso. rewrite Hroot in E0. rewrite E0 in Hin.
    destruct Hok' as [[Hl _] _ _ Hb _ _].
    destruct (blocks_at_In _ _ _ _ _ _ _ Hb Hin) as (_ & K & _).
    unfold_macros. lia.
  - intros fuel Hfuel. rewrite (heap_ok_walk _ _ fuel Hok').
    apply firstn_all2. exact Hfuel.
Qed.

Lemma mm_free_coalesces_witness :
  let s' := mm_free 4128 (heap_after [Malloc 8; Malloc 8; Malloc 8; Free 4112]) in
  let w' := coalesce [(4112, 16, 0)] 4128 16 [(4144, 16, 1); (4160, 4048, 0)] in
  heap_ok s' w' /\
  FREE_LIST_ROOT s'
  = (if is_free (last [(4112, 16, 0)] sentinel)
     then blk_bp (last [(4112, 16, 0)] sentinel) else 4128) /\
  free_list 2 s' = Some [FREE_LIST_ROOT s'] /\
  (forall fuel, (length w' <= fuel)%nat ->
     heap_walk fuel s' (first_block s') = w').
Proof.
  apply (mm_free_coalesces
           (heap_after [Malloc 8; Malloc 8; Malloc 8; Free 4112])
           [(4112, 16, 0)] 4128 16 [(4144, 16, 1); (4160, 4048, 0)]).
  check_heap. right. exists 16. left. reflexivity.
Defined.

(** X9.  A freed block is reused first: after [mm_free(bp)] of a block
    whose previous neighbour is allocated, the next [mm_malloc] whose
    adjusted size fits the block returns [bp] again, without a search
    beyond the root and without growing the heap. *)
Theorem free_then_malloc_reuses : forall fuel s w1 bp size w2 sz,
  heap_ok s (w1 ++ (bp, size, 1) :: w2) ->
  is_free (last w1 sentinel) = false ->
  sz <> 0 -> adjusted_size sz <= size -> (1 <= fuel)%nat ->
  exists s',
    mm_malloc fuel sz (mm_free bp s) = Some (bp, s') /\
    mem_brk s' = mem_brk s.
Proof.
  intros fuel s w1 bp size w2 sz Hok Hprev Hsz Hfit Hfuel.
  destruct (mm_free_pending _ _ _ _ _ Hok) as (s2 & E & Hpf & _ & _ & Hb2 & _).
  destruct (handle_free_ok _ _ _ _ _ Hpf) as (Hok' & Hroot & rs & Hin & Hrs).
  pose proof (handle_free_returns _ _ _ _ _ Hpf) as Hret.
  rewrite Hprev in Hret. rewrite Hret in Hroot, Hin.
  pose proof (same_region_handle_free bp s2) as (_ & Hbrk & _).
  rewrite E. set (s1 := snd (handle_free bp s2)) in *.
  destruct Hok' as [[Hl1 Hl2] [Hm1 Hm2] Hpro Hblk Hepi Hr].
  destruct (blocks_at_In _ _ _ _ _ _ _ Hblk Hin) as (Hbk & K1 & K2).
  destruct Hbk as (B1 & B2 & B3 & B4 & B5 & B6). unfold_macros.
  destruct (tag_decode s1 (bp - 4) rs 0) as [G _]; auto; try lia.
  unfold mm_malloc. destruct (Z.eqb_spec sz 0) as [|_]; [contradiction|].
  unfold find_fit. rewrite Hroot.
  destruct fuel as [|fuel]; [lia|]. cbn [find_fit_loop].
  destruct (Z.eqb_spec bp NULL) as [E0|_]; [unfold NULL in E0; lia|].
  cbn [negb]. unfold HDRP, WSIZE. rewrite G.
  destruct (Z.ltb_spec rs (adjusted_size sz)); [lia|].
  destruct (Z.eqb_spec bp NULL) as [E0|_]; [unfold NULL in E0; lia|].
  cbn [negb]. eexists. split; [reflexivity|].
  pose proof (same_region_handle_malloc bp (adjusted_size sz) s1)
    as (_ & Hc & _).
  congruence.
Qed.

Lemma free_then_malloc_reuses_witness :
  exists s',
    mm_malloc 2 8 (mm_free 4128 (heap_after [Malloc 8; Malloc 8; Malloc 8]))
    = Some (4128, s') /\
    mem_brk s' = mem_brk (heap_after [Malloc 8; Malloc 8; Malloc 8]).
Proof.
  apply (free_then_malloc_reuses 2 (heap_after [Malloc 8; Malloc 8; Malloc 8])
           [(4112, 16, 1)] 4128 16 [(4144, 16, 1); (4160, 4048, 0)] 8).
  - check_heap. right. exists 4048. right. right. right. left. reflexivity.
  - reflexivity.
  - discriminate.
  - vm_compute. discriminate.
  - lia.
Defined.

End FreeReuse.


(** * What the calls leave untouched *)

Section Frames.

(** [handle_free] writes only inside the merged free block: every word of
    every allocated block (header, payload and footer) is left as it
    was. *)
Lemma handle_free_frame s w1 bp size w2 :
  pending_free s w1 bp size w2 ->
  forall q sz x,
    In (q, sz, 1) (w1 ++ w2) -> q - 4 <= x < q + sz - 4 ->
    READ (snd (handle_free bp s)) x = READ s x.
Proof.
  intros Hpf q sz x Hin Hx.
  pose proof (pending_root _ _ _ _ _ Hpf) as Hroot.
  destruct (handle_free_reads _ _ _ _ _ Hpf)
    as (pb & ps & pa & ns & na & Hprev & Hnext & Hpalloc & Hnalloc & Gsz & Gps
        & Gns & Hpe & Hps & Hns & Hpm & Hnm & Hplo & Hnb & Hpa & Hna & Hlast
        & Hhd & Hw1 & Hw2).
  destruct Hpf as [Hlo Hmax Hpro Hbef [Hs1 Hs2] [Hh Hf] Haft Hepi _].
  assert ((In (q, sz, 1) w1 /\ q + sz <= bp) \/
          (In (q, sz, 1) w2 /\ bp + size <= q)) as Hq.
  { apply in_app_or in Hin. destruct Hin as [Hin|Hin]; [left|right];
      (split; [exact Hin|]).
    - destruct (blocks_at_In _ _ _ _ _ _ _ Hbef Hin) as (_ & _ & K). exact K.
    - destruct (blocks_at_In _ _ _ _ _ _ _ Haft Hin) as (_ & K & _). exact K. }
  unfold handle_free. cbv zeta. rewrite Hprev, Hnext, Hpalloc, Hnalloc.
  unfold_macros. rewrite ?Gsz.
  destruct Hpa as [->| ->], Hna as [->| ->]; cbn [Z.eqb negb andb fst snd].
  - (* both neighbours free *)
    destruct (Hw1 eq_refl) as (w1' & ->). destruct (Hw2 eq_refl) as (w2' & ->).
    apply blocks_at_snoc in Hbef.
    destruct Hbef as (Hbef & (Hq1 & _ & _ & _ & _ & Hq6) & _).
    destruct Hq6 as [Hq6 Hq7]; [reflexivity|].
    cbn in Haft. destruct Haft as (_ & (Hn1 & _ & _ & _ & _ & Hn6) & Haft).
    destruct Hn6 as [Hn6 Hn7]; [reflexivity|]. unfold_macros.
    assert (q + sz <= pb \/ bp + size + ns <= q) as Hq'.
    { destruct Hq as [[Hq _]|[Hq _]].
      - apply in_app_or in Hq. destruct Hq as [Hq|[Hq|[]]];
          [|discriminate Hq].
        destruct (blocks_at_In _ _ _ _ _ _ _ Hbef Hq) as (_ & _ & K). auto.
      - destruct Hq as [Hq|Hq]; [discriminate Hq|].
        destruct (blocks_at_In _ _ _ _ _ _ _ Haft Hq) as (_ & K & _). auto. }
    rewrite (fb_patching_null pb s) by assumption.
    rewrite (fb_patching_null (bp + size) (set_root s NULL)) by assumption.
    rewrite !GET_SIZE_set_root, Gps, Gns, !wrap_small
      by (rewrite ?wrap_small; lia).
    rewrite (FTRP_eval _ (bp + size) ns)
      by (unfold HDRP, WSIZE; rewrite GET_SIZE_WRITE_other by lia; exact Gns).
    rewrite add_free_null by (left; reflexivity).
    unfold_macros. reads. reflexivity.
  - (* previous free, next allocated *)
    destruct (Hw1 eq_refl) as (w1' & ->).
    apply blocks_at_snoc in Hbef.
    destruct Hbef as (Hbef & (Hq1 & _ & _ & _ & _ & Hq6) & _).
    destruct Hq6 as [Hq6 Hq7]; [reflexivity|]. unfold_macros.
    assert (q + sz <= pb \/ bp + size <= q) as Hq'.
    { destruct Hq as [[Hq _]|[_ Hq]]; [|auto].
      apply in_app_or in Hq. destruct Hq as [Hq|[Hq|[]]];
        [|discriminate Hq].
      destruct (blocks_at_In _ _ _ _ _ _ _ Hbef Hq) as (_ & _ & K). auto. }
    rewrite (fb_patching_null pb s) by assumption.
    rewrite GET_SIZE_set_root, Gps, wrap_small by lia.
    rewrite (FTRP_eval _ bp size)
      by (unfold HDRP, WSIZE; rewrite GET_SIZE_WRITE_other by lia; exact Gsz).
    rewrite add_free_null by (left; reflexivity).
    unfold_macros. reads. reflexivity.
  - (* previous allocated, next free *)
    destruct (Hw2 eq_refl) as (w2' & ->). cbn in Haft.
    destruct Haft as (_ & (Hn1 & _ & _ & _ & _ & Hn6) & Haft).
    destruct Hn6 as [Hn6 Hn7]; [reflexivity|]. unfold_macros.
    assert (q + sz <= bp \/ bp + size + ns <= q) as Hq'.
    { destruct Hq as [[_ Hq]|[Hq _]]; [auto|].
      destruct Hq as [Hq|Hq]; [discriminate Hq|].
      destruct (blocks_at_In _ _ _ _ _ _ _ Haft Hq) as (_ & K & _). auto. }
    rewrite (fb_patching_null (bp + size) s) by assumption.
    rewrite GET_SIZE_set_root, Gns, wrap_small by lia.
    rewrite (FTRP_eval _ (bp + size) ns)
      by (unfold HDRP, WSIZE; rewrite GET_SIZE_WRITE_other by lia; exact Gns).
    rewrite add_free_null by (left; reflexivity).
    unfold_macros. reads. reflexivity.
  - (* both allocated *)
    rewrite add_free_null.
    2:{ unfold_macros. destruct Hroot as [Hr|(Hr1 & Hr2 & Hr3)]; [left; exact Hr|].
        right. split; [lia|exact Hr1]. }
    unfold_macros. cbn [snd]. reads. reflexivity.
Qed.

(** [handle_malloc] writes only inside the block it places. *)
Lemma handle_malloc_frame s w1 bp cf w2 asize :
  heap_ok s (w1 ++ (bp, cf, 0) :: w2) ->
  2 * DSIZE <= asize <= cf -> asize mod DSIZE = 0 ->
  forall x, x < bp - 4 \/ bp + cf - 4 <= x ->
    READ (handle_malloc bp asize s) x = READ s x.
Proof.
  intros [Hlo Hmax Hpro Hblk Hepi Hroot] Ha Ham x Hx.
  apply blocks_at_app in Hblk. destruct Hblk as (mid & Hbef & Hblk).
  cbn in Hblk. destruct Hblk as (<- & Hb & Haft).
  pose proof (blocks_at_le _ _ _ _ Hbef) as Hle1.
  pose proof (blocks_at_le _ _ _ _ Haft) as Hle2.
  destruct Hb as (H1 & H2 & H3 & H4 & H5 & H6).
  destruct H6 as [H6 H7]; [reflexivity|]. unfold_macros.
  destruct (tag_decode s (bp - 4) cf 0) as [G _]; auto; try lia.
  unfold handle_malloc. cbv zeta. unfold HDRP, DSIZE, WSIZE. rewrite G.
  rewrite (fb_patching_null bp s) by assumption.
  rewrite (wrap_small (cf - asize)) by lia.
  destruct (Z.ltb_spec (cf - asize) (8 * 2)) as [Hrem|Hrem].
  - rewrite (FTRP_eval _ bp cf)
      by (unfold HDRP, WSIZE; apply GET_SIZE_WRITE_PACK; auto; lia).
    reads. reflexivity.
  - assert ((cf - asize) mod 8 = 0) as Hrm by dlia.
    rewrite (FTRP_eval _ bp asize)
      by (unfold HDRP, WSIZE; apply GET_SIZE_WRITE_PACK; auto; lia).
    unfold NEXT_BLKP, WSIZE.
    rewrite (GET_SIZE_WRITE_other (bp + asize - 8)) by lia.
    rewrite GET_SIZE_WRITE_PACK by (auto; lia).
    rewrite (FTRP_eval _ (bp + asize) (cf - asize))
      by (unfold HDRP, WSIZE; apply GET_SIZE_WRITE_PACK; auto; lia).
    rewrite add_free_null by (left; reflexivity).
    unfold_macros. reads. reflexivity.
Qed.

End Frames.


Section Steps.

(** Growing the heap: the new region, tagged free, is a pending free block
    after the blocks the heap had. *)
Lemma extend_heap_pending s w n bp s1 :
  heap_ok s w -> 2 * DSIZE <= n -> n mod DSIZE = 0 ->
  mem_sbrk n s = Some (bp, s1) ->
  exists s3,
    extend_heap (n / WSIZE) s = handle_free (mem_brk s) s3 /\
    pending_free s3 w (mem_brk s) n [] /\
    mem_brk s3 = mem_brk s + n /\
    (forall x, x < mem_brk s - 4 -> READ s3 x = READ s x).
Proof.
  intros [Hlo Hmax Hpro Hblk Hepi Hroot] Hn Hnm Hgrow.
  pose proof (blocks_at_le _ _ _ _ Hblk) as Hle.
  unfold mem_sbrk in Hgrow.
  destruct (Z.ltb_spec (mem_max_addr s) (mem_brk s + n)) as [|Hfit];
    [discriminate|].
  unfold_macros.
  rewrite extend_heap_request by (assumption || lia).
  unfold mem_sbrk. destruct (Z.ltb_spec (mem_max_addr s) (mem_brk s + n));
    [lia|]. cbv zeta.
  rewrite (FTRP_eval _ (mem_brk s) n)
    by (unfold HDRP, WSIZE; apply GET_SIZE_WRITE_PACK; auto; lia).
  unfold NEXT_BLKP, HDRP, WSIZE.
  rewrite (GET_SIZE_WRITE_other (mem_brk s + n - 8)) by lia.
  rewrite GET_SIZE_WRITE_PACK by (auto; lia).
  eexists. split; [reflexivity|]. split; [|split].
  - constructor; unfold_macros;
      cbn [mem_heap_lo mem_brk mem_max_addr FREE_LIST_ROOT WRITE set_mem].
    + exact Hlo.
    + lia.
    + reads. exact Hpro.
    + eapply blocks_at_frame; [|exact Hblk]. intros x Hx. reads. reflexivity.
    + auto.
    + split; reads; apply wrap_PACK; auto; lia.
    + cbn. reflexivity.
    + reads. reflexivity.
    + rewrite app_nil_r. exact Hroot.
  - reflexivity.
  - intros x Hx. reads. reflexivity.
Qed.

(** The steps of a successful [mm_malloc] on a well-formed heap: the heap
    is used as it is or grown first, and the root, a free block that fits,
    is placed. *)
Lemma mm_malloc_steps fuel size s w p s' :
  heap_ok s w -> size_ok size ->
  mm_malloc fuel size s = Some (p, s') -> p <> NULL ->
  let asize := adjusted_size size in
  exists sm wm cf,
    heap_ok sm wm /\ In (p, cf, 0) wm /\
    2 * DSIZE <= asize <= cf /\ asize mod DSIZE = 0 /\
    s' = handle_malloc p asize sm /\
    ((sm = s /\ wm = w) \/
     (exists n s3,
        4096 <= n /\ wm = coalesce w (mem_brk s) n [] /\
        sm = snd (handle_free (mem_brk s) s3) /\
        pending_free s3 w (mem_brk s) n [] /\
        mem_brk s3 = mem_brk s + n /\
        (forall x, x < mem_brk s - 4 -> READ s3 x = READ s x))).
Proof.
  intros Hok Hsize Hm Hp asize. unfold mm_malloc in Hm.
  destruct (Z.eqb_spec size 0) as [Hz|Hz].
  { inversion Hm. subst. contradiction Hp. reflexivity. }
  destruct (adjusted_size_ok size Hsize Hz) as (Ha1 & Ha2 & Ha3).
  fold asize in Ha1, Ha2, Ha3, Hm.
  destruct (find_fit fuel asize s) as [bp|] eqn:Efit; [|discriminate].
  destruct (find_fit_ok _ _ _ _ _ Hok Efit) as [->|(cf & Hin & Hcf)].
  - cbn [Z.eqb NULL negb] in Hm.
    pose proof (MAX_chunk_range asize) as Hn. cbv zeta in Hn.
    destruct Hn as (Hn1 & Hn2 & Hn3); [unfold DSIZE in *; lia|exact Ha2|].
    set (n := MAX asize DEFAULT_CHUNKSIZE) in *.
    unfold DEFAULT_CHUNKSIZE in Hn1.
    destruct (mem_sbrk n s) as [[bp0 s1]|] eqn:Egrow.
    + destruct (extend_heap_pending s w n bp0 s1 Hok)
        as (s3 & E & Hpf & Hb3 & Hf3);
        [unfold DSIZE; lia|exact Hn2|exact Egrow|].
      rewrite E in Hm.
      destruct (handle_free_ok _ _ _ _ _ Hpf) as (Hok' & Hroot & rs & Hr & Hrs).
      destruct (handle_free (mem_brk s) s3) as [r se] eqn:EH.
      cbn [fst snd] in *.
      destruct (Z.eqb_spec r NULL) as [Er|Er].
      * inversion Hm. subst. contradiction Hp. reflexivity.
      * inversion Hm. subst p s'. clear Hm.
        exists se, (coalesce w (mem_brk s) n []), rs.
        split; [exact Hok'|]. split; [exact Hr|].
        split; [unfold DSIZE in *; lia|].
        split; [exact Ha2|]. split; [reflexivity|].
        right. exists n, s3. split; [lia|]. split; [reflexivity|].
        split; [rewrite EH; reflexivity|]. split; [exact Hpf|]. split; [exact Hb3|].
        exact Hf3.
    + rewrite extend_heap_request in Hm by (lia || assumption).
      rewrite Egrow in Hm. cbn [Z.eqb NULL] in Hm.
      inversion Hm. subst. contradiction Hp. reflexivity.
  - assert (bp <> NULL) as Hbp.
    { destruct Hok as [[Hl1 Hl2] _ _ Hb _ _].
      destruct (blocks_at_In _ _ _ _ _ _ _ Hb Hin) as (_ & K & _).
      unfold_macros. lia. }
    destruct (Z.eqb_spec bp NULL) as [|_]; [contradiction|]. cbn [negb] in Hm.
    inversion Hm. subst p s'. clear Hm.
    exists s, w, cf. split; [exact Hok|]. split; [exact Hin|].
    split; [unfold DSIZE in *; lia|]. split; [exact Ha2|].
    split; [reflexivity|]. left. auto.
Qed.

End Steps.


Section RoundTrips.

(** Two blocks of a sequence do not overlap. *)
Lemma blocks_disjoint s w : forall bp e p sp a q sq b,
  blocks_at s bp w e ->
  In (p, sp, a) w -> In (q, sq, b) w -> p <> q ->
  p + sp <= q \/ q + sq <= p.
Proof.
  induction w as [|[[r sr] ar] w IH]; intros bp e p sp a q sq b H H1 H2 Hne;
    cbn in *; [contradiction|].
  destruct H as (Hr & Hb & Hw).
  destruct H1 as [E1|H1], H2 as [E2|H2].
  - inversion E1. inversion E2. subst. contradiction.
  - inversion E1. subst.
    destruct (blocks_at_In _ _ _ _ _ _ _ Hw H2) as (_ & K & _). auto.
  - inversion E2. subst.
    destruct (blocks_at_In _ _ _ _ _ _ _ Hw H1) as (_ & K & _). auto.
  - eapply IH; eassumption.
Qed.

(** [mm_free] on an allocated block: the heap stays well formed, coalesced
    as [coalesce] says, and the merged block is the root. *)
Lemma mm_free_root s w1 bp size w2 :
  heap_ok s (w1 ++ (bp, size, 1) :: w2) ->
  heap_ok (mm_free bp s) (coalesce w1 bp size w2) /\
  FREE_LIST_ROOT (mm_free bp s)
  = (if is_free (last w1 sentinel) then blk_bp (last w1 sentinel) else bp).
Proof.
  intros Hok.
  destruct (mm_free_pending _ _ _ _ _ Hok) as (s2 & E & Hpf & _).
  destruct (handle_free_ok _ _ _ _ _ Hpf) as (Hok' & Hroot & _).
  pose proof (handle_free_returns _ _ _ _ _ Hpf) as Hret.
  rewrite E. split; [exact Hok'|]. rewrite Hroot. exact Hret.
Qed.

(** X10.  Allocating and freeing again restores the heap's block
    structure: on a well-formed, coalesced heap, after a successful
    [mm_malloc] (for a size that does not wrap) followed by [mm_free] of
    the pointer it returned, the block sequence is the one before the
    allocation when the heap did not grow, and that sequence with the new
    region coalesced in when it did; the freed block is the root of the
    list. *)
Theorem malloc_then_free_restores : forall fuel size s w p s',
  heap_ok s w -> coalesced w -> size_ok size ->
  mm_malloc fuel size s = Some (p, s') -> p <> NULL ->
  let w0 := if mem_brk s' =? mem_brk s then w
            else coalesce w (mem_brk s) (mem_brk s' - mem_brk s) [] in
  heap_ok (mm_free p s') w0 /\ FREE_LIST_ROOT (mm_free p s') = p.
Proof.
  intros fuel size s w p s' Hok Hco Hsize Hm Hp w0.
  destruct (mm_malloc_steps _ _ _ _ _ _ Hok Hsize Hm Hp)
    as (sm & wm & cf & Hokm & Hin & Ha & Ham & Es & Hcase).
  pose proof (same_region_handle_malloc p (adjusted_size size) sm)
    as (_ & Hbrk & _). rewrite <- Es in Hbrk.
  assert (w0 = wm /\ coalesced wm) as [-> Hcm].
  { subst w0. destruct Hcase as [[-> ->]|(n & s3 & Hn & -> & -> & Hpf & Hb3 & _)].
    - rewrite Hbrk, Z.eqb_refl. auto.
    - pose proof (same_region_handle_free (mem_brk s) s3) as (_ & Hb & _).
      rewrite Hbrk, Hb, Hb3.
      destruct (Z.eqb_spec (mem_brk s + n) (mem_brk s)); [lia|].
      replace (mem_brk s + n - mem_brk s) with n by lia.
      split; [reflexivity|]. apply coalesced_coalesce; [exact Hco|reflexivity]. }
  destruct (in_split _ _ Hin) as (w1 & w2 & ->).
  pose proof (handle_malloc_ok _ _ _ _ _ _ Hokm Ha Ham) as Hok'.
  rewrite <- Es in Hok'.
  apply coalesced_app in Hcm. destruct Hcm as (_ & Hc2 & Hc3).
  apply coalesced_cons in Hc2. destruct Hc2 as (_ & Hc4).
  cbn [hd is_free blk_alloc snd Z.eqb andb] in Hc3, Hc4.
  rewrite andb_true_r in Hc3.
  unfold place in Hok'.
  destruct (Z.ltb_spec (cf - adjusted_size size) (DSIZE * 2)) as [Hr|Hr];
    cbn [app] in Hok'; apply mm_free_root in Hok'; rewrite Hc3 in Hok';
    destruct Hok' as [Hok' Hroot]; (split; [|exact Hroot]);
    unfold coalesce in Hok'; cbv zeta in Hok'; unfold is_free in Hc3, Hc4;
    rewrite Hc3 in Hok'.
  - rewrite Hc4 in Hok'. cbn [negb andb] in Hok'. exact Hok'.
  - cbn [hd tl blk_alloc blk_size fst snd Z.eqb negb andb] in Hok'.
    replace (adjusted_size size + (cf - adjusted_size size)) with cf
      in Hok' by lia.
    exact Hok'.
Qed.

Lemma malloc_then_free_restores_witness :
  let s := heap_after [Malloc 8] in
  let w := [(4112, 16, 1); (4128, 4080, 0)] in
  let s' := heap_after [Malloc 8; Malloc 8] in
  let w0 := if mem_brk s' =? mem_brk s then w
            else coalesce w (mem_brk s) (mem_brk s' - mem_brk s) [] in
  heap_ok (mm_free 4128 s') w0 /\ FREE_LIST_ROOT (mm_free 4128 s') = 4128.
Proof.
  intros s w s'.
  apply (malloc_then_free_restores 2 8 s w 4128 s').
  - check_heap. right. exists 4080. right. left. reflexivity.
  - reflexivity.
  - unfold size_ok, DSIZE. lia.
  - vm_compute. reflexivity.
  - discriminate.
Defined.

(** X20.  [mm_free] writes only inside the block it frees and the free
    neighbours it merges: every word of every other allocated block,
    header, payload and footer, reads as before. *)
Theorem mm_free_keeps_allocated_blocks : forall s w1 bp size w2 q sz x,
  heap_ok s (w1 ++ (bp, size, 1) :: w2) ->
  In (q, sz, 1) (w1 ++ w2) -> q - WSIZE <= x < q + sz - WSIZE ->
  READ (mm_free bp s) x = READ s x.
Proof.
  intros s w1 bp size w2 q sz x Hok Hin Hx. unfold WSIZE in Hx.
  destruct (mm_free_pending _ _ _ _ _ Hok) as (s2 & E & Hpf & Hf2 & _).
  rewrite E, (handle_free_frame _ _ _ _ _ Hpf q sz x Hin Hx).
  apply Hf2.
  - destruct Hpf as [_ _ _ Hbef [Hs1 _] _ Haft _ _]. unfold DSIZE in Hs1.
    apply in_app_or in Hin. destruct Hin as [Hin|Hin].
    + destruct (blocks_at_In _ _ _ _ _ _ _ Hbef Hin) as (_ & _ & K). lia.
    + destruct (blocks_at_In _ _ _ _ _ _ _ Haft Hin) as (_ & K & _). lia.
  - destruct Hpf as [_ _ _ Hbef [Hs1 _] _ Haft _ _]. unfold DSIZE in Hs1.
    apply in_app_or in Hin. destruct Hin as [Hin|Hin].
    + destruct (blocks_at_In _ _ _ _ _ _ _ Hbef Hin) as (_ & _ & K). lia.
    + destruct (blocks_at_In _ _ _ _ _ _ _ Haft Hin) as (_ & K & _). lia.
Qed.

Lemma mm_free_keeps_allocated_blocks_witness :
  let s := heap_after [Malloc 8; Malloc 8; Malloc 8] in
  READ (mm_free 4128 s) 4148 = READ s 4148.
Proof.
  intros s.
  apply (mm_free_keeps_allocated_blocks s [(4112, 16, 1)] 4128 16
           [(4144, 16, 1); (4160, 4048, 0)] 4144 16 4148).
  - check_heap. right. exists 4048. right. right. right. left. reflexivity.
  - right. left. reflexivity.
  - unfold WSIZE. lia.
Defined.

(** A NULL result of [mm_malloc] comes with the heap it was given. *)
Lemma mm_malloc_null fuel size s w s' :
  heap_ok s w -> mm_malloc fuel size s = Some (NULL, s') -> s' = s.
Proof.
  intros Hok. unfold mm_malloc.
  destruct (size =? 0); [intros H; inversion H; reflexivity|].
  pose proof (adjusted_size_range size) as [Hr Hm].
  destruct (find_fit fuel (adjusted_size size) s) as [bp|]; [|discriminate].
  destruct (Z.eqb_spec bp NULL) as [->|Hbp]; cbn [negb].
  - pose proof (MAX_chunk_range _ Hr Hm) as (Hn1 & Hn2 & _).
    set (n := MAX (adjusted_size size) DEFAULT_CHUNKSIZE) in *.
    unfold DEFAULT_CHUNKSIZE in Hn1.
    destruct (mem_sbrk n s) as [[bp0 s1]|] eqn:Egrow.
    + destruct (extend_heap_pending s w n bp0 s1 Hok)
        as (s3 & E & Hpf & _);
        [unfold DSIZE; lia|exact Hn2|exact Egrow|].
      rewrite E.
      destruct (handle_free_ok _ _ _ _ _ Hpf) as (Hok' & _ & rs & Hin & _).
      destruct (handle_free (mem_brk s) s3) as [r se]. cbn [fst snd] in *.
      destruct Hok' as [[Hl _] _ _ Hb _ _].
      destruct (blocks_at_In _ _ _ _ _ _ _ Hb Hin) as (_ & K & _).
      unfold_macros.
      destruct (Z.eqb_spec r 0) as [|Hr0]; [lia|].
      intros H. inversion H. contradiction.
    + rewrite extend_heap_request by (lia || assumption).
      rewrite Egrow. cbn [Z.eqb NULL]. intros H. inversion H. reflexivity.
  - intros H. inversion H. contradiction.
Qed.

(** X21.  [mm_malloc] writes only inside free blocks and the region it
    adds: on a well-formed heap, for a size that does not wrap, every word
    of every block that was allocated before the call, header, payload and
    footer, reads as before. *)
Theorem mm_malloc_keeps_allocated_blocks : forall fuel size s w p s' q sz x,
  heap_ok s w -> size_ok size ->
  mm_malloc fuel size s = Some (p, s') ->
  In (q, sz, 1) w -> q - WSIZE <= x < q + sz - WSIZE ->
  READ s' x = READ s x.
Proof.
  intros fuel size s w p s' q sz x Hok Hsize Hm Hin Hx. unfold WSIZE in Hx.
  destruct (Z.eq_dec p NULL) as [->|Hp].
  { rewrite (mm_malloc_null _ _ _ _ _ Hok Hm). reflexivity. }
  destruct (mm_malloc_steps _ _ _ _ _ _ Hok Hsize Hm Hp)
    as (sm & wm & cf & Hokm & Hinp & Ha & Ham & -> & Hcase).
  assert (In (q, sz, 1) wm /\ READ sm x = READ s x) as [Hq Hsm].
  { destruct Hcase as [[-> ->]|(n & s3 & Hn & -> & -> & Hpf & Hb3 & Hf3)].
    - auto.
    - split; [apply In_alloc_coalesce; left; exact Hin|].
      rewrite (handle_free_frame _ _ _ _ _ Hpf q sz x)
        by (rewrite ?app_nil_r; assumption).
      apply Hf3. destruct Hok as [_ _ _ Hb _ _].
      destruct (blocks_at_In _ _ _ _ _ _ _ Hb Hin) as (_ & _ & K). lia. }
  rewrite <- Hsm.
  assert (q <> p) as Hne.
  { intros ->.
    destruct (blocks_at_unique _ _ _ _ _ _ _ _ _ (ok_blocks _ _ Hokm) Hq Hinp)
      as [_ K]. discriminate K. }
  pose proof (blocks_disjoint _ _ _ _ _ _ _ _ _ _ (ok_blocks _ _ Hokm)
                Hq Hinp Hne) as Hd.
  destruct (in_split _ _ Hinp) as (w1 & w2 & ->).
  apply (handle_malloc_frame _ _ _ _ _ _ Hokm Ha Ham). lia.
Qed.

Lemma mm_malloc_keeps_allocated_blocks_witness :
  let s := heap_after [Malloc 8] in
  let s' := heap_after [Malloc 8; Malloc 8] in
  READ s' 4116 = READ s 4116.
Proof.
  intros s s'.
  apply (mm_malloc_keeps_allocated_blocks 2 8 s
           [(4112, 16, 1); (4128, 4080, 0)] 4128 s' 4112 16 4116).
  - check_heap. right. exists 4080. right. left. reflexivity.
  - unfold size_ok, DSIZE. lia.
  - vm_compute. reflexivity.
  - left. reflexivity.
  - unfold WSIZE. lia.
Defined.

End RoundTrips.


Section Outcomes.

(** X22.  A failed allocation changes nothing: on a well-formed heap,
    whenever [mm_malloc] returns NULL (size 0, or no fit and the growth
    primitive refusing), the heap is exactly the one before the call. *)
Theorem mm_malloc_failure_is_clean : forall fuel size s w s',
  heap_ok s w -> mm_malloc fuel size s = Some (NULL, s') -> s' = s.
Proof.
  intros fuel size s w s' Hok Hm.
  exact (mm_malloc_null fuel size s w s' Hok Hm).
Qed.

Lemma mm_malloc_failure_is_clean_witness :
  init_heap 4096 4112 = init_heap 4096 4112.
Proof.
  apply (mm_malloc_failure_is_clean 2 16 (init_heap 4096 4112) []
           (init_heap 4096 4112)).
  - check_heap.
  - vm_compute. reflexivity.
Defined.

(** X23.  [mm_malloc] gives up only when the region is exhausted: on a
    well-formed heap, a NULL result for a size other than 0 means that the
    region has no room for [MAX(asize, DEFAULT_CHUNKSIZE)] more bytes, and
    that the free list is empty or its root block is smaller than the
    adjusted size. *)
Theorem mm_malloc_fails_only_when_exhausted : forall fuel size s w s',
  heap_ok s w -> size <> 0 ->
  mm_malloc fuel size s = Some (NULL, s') ->
  mem_max_addr s < mem_brk s + MAX (adjusted_size size) DEFAULT_CHUNKSIZE /\
  (FREE_LIST_ROOT s = NULL \/
   GET_SIZE s (HDRP (FREE_LIST_ROOT s)) < adjusted_size size).
Proof.
  intros fuel size s w s' Hok Hsz. unfold mm_malloc.
  destruct (Z.eqb_spec size 0) as [|_]; [contradiction|].
  pose proof (adjusted_size_range size) as [Hr Hmod].
  pose proof (MAX_chunk_range _ Hr Hmod) as (Hn1 & Hn3 & _).
  set (asize := adjusted_size size) in *.
  set (n := MAX asize DEFAULT_CHUNKSIZE) in *.
  unfold DEFAULT_CHUNKSIZE in Hn1.
  destruct (find_fit fuel asize s) as [r|] eqn:Efit; [|discriminate].
  destruct (Z.eqb_spec r NULL) as [->|Hr0]; cbn [negb].
  - rewrite extend_heap_request by (lia || assumption).
    destruct (mem_sbrk n s) as [[bp s1]|] eqn:Egrow.
    + destruct (extend_heap_ok s w n bp s1 Hok) as (Hok' & _ & rs & Hin & _);
        [unfold DSIZE; lia|exact Hn3|exact Egrow|].
      rewrite extend_heap_request in Hok', Hin by (lia || assumption).
      rewrite Egrow in Hok', Hin. cbv zeta in Hok', Hin. cbv zeta.
      match goal with
      | |- context [handle_free bp ?t] =>
          destruct (handle_free bp t) as [r se]
      end.
      cbn [fst snd] in Hok', Hin.
      destruct Hok' as [[Hl1 _] _ _ Hblk _ _].
      destruct (blocks_at_In _ _ _ _ _ _ _ Hblk Hin) as (_ & K & _).
      unfold first_block, WSIZE in K.
      destruct (Z.eqb_spec r NULL) as [E|_];
        [unfold NULL in E; lia|].
      intros H. inversion H. subst r. unfold NULL in K. lia.
    + intros _. split.
      * unfold mem_sbrk in Egrow.
        destruct (Z.ltb_spec (mem_max_addr s) (mem_brk s + n));
          [assumption|discriminate].
      * unfold find_fit in Efit. destruct fuel as [|fuel]; [discriminate|].
        cbn [find_fit_loop] in Efit.
        destruct (Z.eqb_spec (FREE_LIST_ROOT s) NULL) as [E|E];
          [left; exact E|right]. cbn [negb] in Efit.
        destruct (Z.ltb_spec (GET_SIZE s (HDRP (FREE_LIST_ROOT s))) asize);
          [assumption|].
        inversion Efit. contradiction.
  - intros H. inversion H. contradiction.
Qed.

Lemma mm_malloc_fails_only_when_exhausted_witness :
  let s := heap_after [Malloc 12000] in
  mem_max_addr s < mem_brk s + MAX (adjusted_size 500) DEFAULT_CHUNKSIZE /\
  (FREE_LIST_ROOT s = NULL \/
   GET_SIZE s (HDRP (FREE_LIST_ROOT s)) < adjusted_size 500).
Proof.
  intros s.
  apply (mm_malloc_fails_only_when_exhausted 2 500 s
           [(4112, 12008, 1)] s).
  - check_heap.
  - discriminate.
  - vm_compute. reflexivity.
Defined.

(** X5.  [mm_init] on a fresh region succeeds exactly when the region has
    room for 16 bytes: it then returns 0, advances the break by 16 and
    leaves a well-formed heap with no block and an empty free list;
    otherwise it returns -1 and changes nothing. *)
Theorem mm_init_outcome : forall s,
  fresh s ->
  (mem_brk s + 4 * WSIZE <= mem_max_addr s ->
   fst (mm_init s) = 0 /\ heap_ok (snd (mm_init s)) [] /\
   FREE_LIST_ROOT (snd (mm_init s)) = NULL /\
   mem_brk (snd (mm_init s)) = mem_brk s + 4 * WSIZE) /\
  (mem_max_addr s < mem_brk s + 4 * WSIZE -> mm_init s = (-1, s)).
Proof.
  intros s Hs. split; intros Hroom.
  - assert (exists s0, mm_init s = (0, s0) /\
                       FREE_LIST_ROOT s0 = FREE_LIST_ROOT s /\
                       mem_brk s0 = mem_brk s + 4 * WSIZE)
      as (s0 & E & Hr & Hb).
    { unfold mm_init, mem_sbrk.
      destruct (Z.ltb_spec (mem_max_addr s) (mem_brk s + 4 * WSIZE)); [lia|].
      eexists. split; [reflexivity|]. split; reflexivity. }
    rewrite E. cbn [fst snd]. split; [reflexivity|].
    split; [eapply mm_init_ok; eassumption|]. split; [|exact Hb].
    rewrite Hr. exact (proj1 Hs).
  - unfold mm_init, mem_sbrk.
    destruct (Z.ltb_spec (mem_max_addr s) (mem_brk s + 4 * WSIZE)); [|lia].
    reflexivity.
Qed.


Lemma mm_init_outcome_witness :
  (mem_brk (fresh_heap 4096 8192) + 4 * WSIZE
   <= mem_max_addr (fresh_heap 4096 8192) ->
   fst (mm_init (fresh_heap 4096 8192)) = 0 /\
   heap_ok (snd (mm_init (fresh_heap 4096 8192))) [] /\
   FREE_LIST_ROOT (snd (mm_init (fresh_heap 4096 8192))) = NULL /\
   mem_brk (snd (mm_init (fresh_heap 4096 8192)))
   = mem_brk (fresh_heap 4096 8192) + 4 * WSIZE) /\
  (mem_max_addr (fresh_heap 4096 8192)
   < mem_brk (fresh_heap 4096 8192) + 4 * WSIZE ->
   mm_init (fresh_heap 4096 8192) = (-1, fresh_heap 4096 8192)).
Proof.
  apply (mm_init_outcome (fresh_heap 4096 8192)).
  vm_compute. repeat split; discriminate.
Defined.



(** X11.  The break moves only forward, and only in [mm_malloc]: [mm_free]
    leaves the region's start, break and limit as they are, and a call of
    [mm_malloc] that returns leaves the break where it was or advances it
    by exactly [MAX(asize, DEFAULT_CHUNKSIZE)] bytes.  This holds in every
    state. *)
Theorem break_moves_only_by_growth : forall fuel size s p s',
  mm_malloc fuel size s = Some (p, s') ->
  (forall bp, same_region s (mm_free bp s)) /\
  mem_heap_lo s' = mem_heap_lo s /\ mem_max_addr s' = mem_max_addr s /\
  (mem_brk s' = mem_brk s \/
   mem_brk s' = mem_brk s + MAX (adjusted_size size) DEFAULT_CHUNKSIZE).
Proof.
  intros fuel size s p s' Hm. split.
  - intros bp. unfold mm_free. cbv zeta.
    match goal with
    | |- same_region s (snd (handle_free bp ?t)) =>
        pose proof (same_region_handle_free bp t) as (H1 & H2 & H3)
    end.
    repeat split; assumption.
  - unfold mm_malloc in Hm.
    destruct (size =? 0); [inversion Hm; subst; auto|].
    pose proof (adjusted_size_range size) as [Hr Hmod].
    pose proof (MAX_chunk_range _ Hr Hmod) as (Hn1 & Hn2 & _).
    set (asize := adjusted_size size) in *.
    set (n := MAX asize DEFAULT_CHUNKSIZE) in *.
    unfold DEFAULT_CHUNKSIZE in Hn1.
    destruct (find_fit fuel asize s) as [bp|]; [|discriminate].
    destruct (negb (bp =? NULL)).
    + inversion Hm. subst.
      pose proof (same_region_handle_malloc p asize s) as (H1 & H2 & H3).
      auto.
    + rewrite extend_heap_request in Hm by (lia || assumption).
      destruct (mem_sbrk n s) as [[bp0 s1]|] eqn:Egrow.
      * cbv zeta in Hm.
        assert (same_region s
                  (mkHeap (mem s1) (mem_heap_lo s) (mem_brk s)
                     (mem_max_addr s) (FREE_LIST_ROOT s1)) /\
                mem_heap_lo s1 = mem_heap_lo s /\
                mem_brk s1 = mem_brk s + n /\
                mem_max_addr s1 = mem_max_addr s) as (_ & E1 & E2 & E3).
        { unfold mem_sbrk in Egrow. destruct (_ <? _); [discriminate|].
          inversion Egrow. repeat split. }
        match type of Hm with
        | context [handle_free bp0 ?t] =>
            pose proof (same_region_handle_free bp0 t) as (H1 & H2 & H3);
            destruct (handle_free bp0 t) as [r se]
        end.
        cbn [snd] in H1, H2, H3.
        change (mem_heap_lo se = mem_heap_lo s1) in H1.
        change (mem_brk se = mem_brk s1) in H2.
        change (mem_max_addr se = mem_max_addr s1) in H3.
        destruct (r =? NULL).
        -- inversion Hm. subst. split; [congruence|]. split; [congruence|].
           right. congruence.
        -- injection Hm as Hp Hs'. rewrite <- Hs'.
           pose proof (same_region_handle_malloc r asize se) as (K1 & K2 & K3).
           split; [congruence|]. split; [congruence|]. right. congruence.
      * cbn [Z.eqb NULL] in Hm. inversion Hm. subst. auto.
Qed.

Lemma break_moves_only_by_growth_witness :
  let s := init_heap 4096 16384 in
  let s' := heap_after [Malloc 16] in
  (forall bp, same_region s (mm_free bp s)) /\
  mem_heap_lo s' = mem_heap_lo s /\ mem_max_addr s' = mem_max_addr s /\
  (mem_brk s' = mem_brk s \/
   mem_brk s' = mem_brk s + MAX (adjusted_size 16) DEFAULT_CHUNKSIZE).
Proof.
  intros s s'.
  apply (break_moves_only_by_growth 2 16 s 4112 s').
  vm_compute. reflexivity.
Defined.

(** X19.  The adjusted size of a request that does not wrap (1 to
    2^32 - 16 bytes) is the multiple of 8 that covers the request and the
    two tag words with less than 8 bytes of padding, and is at least the
    minimum block size: [size + 8 <= asize <= size + 15],
    [16 <= asize]. *)
Theorem adjusted_size_bounds : forall size,
  0 < size <= 2 ^ 32 - 2 * DSIZE ->
  let asize := adjusted_size size in
  asize mod DSIZE = 0 /\ 2 * DSIZE <= asize /\
  size + DSIZE <= asize <= size + 2 * DSIZE - 1.
Proof.
  intros size Hs. unfold adjusted_size, DSIZE in *.
  destruct (Z.leb_spec size 8); cbv zeta.
  - repeat split; lia.
  - rewrite (wrap_small (size + 8 + (8 - 1))) by lia.
    rewrite wrap_small by dlia. dlia.
Qed.

Lemma adjusted_size_bounds_witness :
  let asize := adjusted_size 100 in
  asize mod DSIZE = 0 /\ 2 * DSIZE <= asize /\
  100 + DSIZE <= asize <= 100 + 2 * DSIZE - 1.
Proof.
  apply (adjusted_size_bounds 100). unfold DSIZE. lia.
Defined.

(** X17.  Decoding a tag word and packing the two fields again gives the
    word back, for every stored word whose two unused flag bits (bits 1 and
    2) are clear. *)
Theorem tag_repack : forall s p,
  READ s p mod 8 < 2 ->
  PACK (GET_SIZE s p) (GET_ALLOC s p) = READ s p.
Proof.
  intros s p H. rewrite GET_SIZE_div, GET_ALLOC_mod.
  pose proof (wrap_range (mem s p)) as Hr. fold (READ s p) in Hr.
  rewrite PACK_add by dlia. dlia.
Qed.

Lemma tag_repack_witness :
  PACK (GET_SIZE (init_heap 4096 8192) 4100)
       (GET_ALLOC (init_heap 4096 8192) 4100)
  = READ (init_heap 4096 8192) 4100.
Proof.
  apply (tag_repack (init_heap 4096 8192) 4100). vm_compute. reflexivity.
Defined.

End Outcomes.


(** * Properties of every reachable state *)

Section Reachable.

(** The tags of a block of a well-formed heap decode to its size and
    allocation bit. *)
Lemma heap_ok_tag s w p size a :
  heap_ok s w -> In (p, size, a) w ->
  GET_SIZE s (HDRP p) = size /\ GET_ALLOC s (HDRP p) = a.
Proof.
  intros [[Hl1 Hl2] [Hm1 Hm2] _ Hblk _ _] Hin.
  destruct (blocks_at_In _ _ _ _ _ _ _ Hblk Hin) as (Hbk & K1 & K2).
  destruct Hbk as (H1 & H2 & H3 & H4 & _).
  unfold first_block, WSIZE, DSIZE in *.
  apply tag_decode; auto; lia.
Qed.

(** X2.  The free list never holds more than one block: in every state
    reached from a fresh region by [mm_init] and calls whose sizes do not
    wrap, the walk from the root ends after the root block (or at once,
    when the root is null), however many free blocks the heap has. *)
Theorem free_list_never_exceeds_one : forall s s0 fuel cs st,
  fresh s -> mm_init s = (0, s0) ->
  Forall call_ok cs -> do_calls fuel cs (s0, []) = Some st ->
  free_list 2 (fst st)
  = Some (if FREE_LIST_ROOT (fst st) =? NULL then []
          else [FREE_LIST_ROOT (fst st)]).
Proof.
  intros s s0 fuel cs st Hs Hinit Hcs Hrun.
  destruct (init_calls_client_ok _ _ _ _ _ Hs Hinit Hcs Hrun)
    as (w & Hok & _).
  exact (free_list_at_most_root _ _ Hok).
Qed.

Lemma free_list_never_exceeds_one_witness :
  let st : client :=
    (heap_after [Malloc 8; Malloc 8; Malloc 8; Free 4112; Free 4144],
     [4128]) in
  free_list 2 (fst st)
  = Some (if FREE_LIST_ROOT (fst st) =? NULL then []
          else [FREE_LIST_ROOT (fst st)]).
Proof.
  intros st.
  apply (free_list_never_exceeds_one (fresh_heap 4096 16384)
           (init_heap 4096 16384) 2
           [Malloc 8; Malloc 8; Malloc 8; Free 4112; Free 4144] st).
  - vm_compute. repeat split; discriminate.
  - vm_compute. reflexivity.
  - repeat constructor; unfold DSIZE; lia.
  - vm_compute. reflexivity.
Defined.

(** X16.  The blocks the client holds never overlap: in every state
    reached from a fresh region by [mm_init] and calls whose sizes do not
    wrap, two distinct pointers returned by [mm_malloc] and not yet freed
    lie a whole block apart, the size being the one in the block's
    header. *)
Theorem live_blocks_do_not_overlap : forall s s0 fuel cs st p q,
  fresh s -> mm_init s = (0, s0) ->
  Forall call_ok cs -> do_calls fuel cs (s0, []) = Some st ->
  In p (snd st) -> In q (snd st) -> p <> q ->
  p + GET_SIZE (fst st) (HDRP p) <= q \/
  q + GET_SIZE (fst st) (HDRP q) <= p.
Proof.
  intros s s0 fuel cs st p q Hs Hinit Hcs Hrun Hp Hq Hne.
  destruct (init_calls_client_ok _ _ _ _ _ Hs Hinit Hcs Hrun)
    as (w & Hok & _ & _ & Hlive).
  destruct (Hlive p Hp) as (sp & Hinp). destruct (Hlive q Hq) as (sq & Hinq).
  destruct (heap_ok_tag _ _ _ _ _ Hok Hinp) as [-> _].
  destruct (heap_ok_tag _ _ _ _ _ Hok Hinq) as [-> _].
  destruct Hok as [_ _ _ Hblk _ _].
  exact (blocks_disjoint _ _ _ _ _ _ _ _ _ _ Hblk Hinp Hinq Hne).
Qed.

Lemma live_blocks_do_not_overlap_witness :
  let st : client := (heap_after [Malloc 8; Malloc 24], [4128; 4112]) in
  4112 + GET_SIZE (fst st) (HDRP 4112) <= 4128 \/
  4128 + GET_SIZE (fst st) (HDRP 4128) <= 4112.
Proof.
  intros st.
  apply (live_blocks_do_not_overlap (fresh_heap 4096 16384)
           (init_heap 4096 16384) 2 [Malloc 8; Malloc 24] st 4112 4128).
  - vm_compute. repeat split; discriminate.
  - vm_compute. reflexivity.
  - repeat constructor; unfold DSIZE; lia.
  - vm_compute. reflexivity.
  - right. left. reflexivity.
  - left. reflexivity.
  - discriminate.
Defined.

(** On a well-formed heap the search of [find_fit] ends within two
    iterations. *)
Lemma find_fit_two s w fuel asize :
  heap_ok s w -> (2 <= fuel)%nat ->
  find_fit fuel asize s = find_fit 2 asize s.
Proof.
  intros [Hlo Hmax Hpro Hblk Hepi Hroot] Hfuel. unfold find_fit.
  destruct fuel as [|[|fuel]]; [lia|lia|]. cbn [find_fit_loop].
  destruct (Z.eqb_spec (FREE_LIST_ROOT s) NULL) as [E|E]; cbn [negb];
    [reflexivity|].
  destruct (_ <? _); [|reflexivity].
  destruct Hroot as [Hr|(rs & Hr)]; [contradiction|].
  destruct (blocks_at_In _ _ _ _ _ _ _ Hblk Hr) as (Hb & K1 & K2).
  destruct Hb as (H1 & H2 & H3 & H4 & H5 & H6).
  destruct H6 as [H6 H7]; [reflexivity|]. rewrite H6.
  destruct fuel; reflexivity.
Qed.

(** X18.  [mm_malloc] always returns on a well-formed heap, for every
    size: the loop of [find_fit] runs at most two iterations, so any bound
    of two or more on its iterations gives the same pointer and the same
    heap. *)
Theorem mm_malloc_search_terminates : forall fuel size s w,
  heap_ok s w -> (2 <= fuel)%nat ->
  exists p s',
    mm_malloc fuel size s = Some (p, s') /\
    mm_malloc 2 size s = Some (p, s').
Proof.
  intros fuel size s w Hok Hfuel.
  assert (mm_malloc fuel size s = mm_malloc 2 size s) as E.
  { unfold mm_malloc. rewrite (find_fit_two _ _ _ _ Hok Hfuel). reflexivity. }
  destruct (mm_malloc_total 2 size s w Hok (le_n 2)) as (p & s' & H).
  exists p, s'. rewrite E. auto.
Qed.

Lemma mm_malloc_search_terminates_witness :
  exists p s',
    mm_malloc 5 4000 (heap_after [Malloc 8; Malloc 8; Malloc 8; Free 4128])
    = Some (p, s') /\
    mm_malloc 2 4000 (heap_after [Malloc 8; Malloc 8; Malloc 8; Free 4128])
    = Some (p, s').
Proof.
  apply (mm_malloc_search_terminates 5 4000
           (heap_after [Malloc 8; Malloc 8; Malloc 8; Free 4128])
           [(4112, 16, 1); (4128, 16, 0); (4144, 16, 1); (4160, 4048, 0)]).
  - check_heap. right. exists 16. right. left. reflexivity.
  - lia.
Defined.

(** X7.  [extend_heap] adds the new region as a free block and coalesces
    it with the last block when that one is free: on a well-formed heap
    with room for [n] more bytes ([n] a multiple of 8, at least 16), the
    heap stays well formed with the block sequence
    [coalesce w (mem_brk s) n []], the block returned starts at the last
    block when that one was free and at the old break otherwise, it is the
    root of the free list, and the break has advanced by [n]. *)
Theorem extend_heap_coalesces : forall s w n,
  heap_ok s w -> 2 * DSIZE <= n -> n mod DSIZE = 0 ->
  mem_brk s + n <= mem_max_addr s ->
  let r := fst (extend_heap (n / WSIZE) s) in
  let s' := snd (extend_heap (n / WSIZE) s) in
  heap_ok s' (coalesce w (mem_brk s) n []) /\
  r = (if is_free (last w sentinel) then blk_bp (last w sentinel)
       else mem_brk s) /\
  FREE_LIST_ROOT s' = r /\
  mem_brk s' = mem_brk s + n.
Proof.
  intros s w n Hok Hn Hnm Hroom r s'.
  assert (exists bp s1, mem_sbrk n s = Some (bp, s1)) as (bp & s1 & Hgrow).
  { unfold mem_sbrk.
    destruct (Z.ltb_spec (mem_max_addr s) (mem_brk s + n)); [lia|eauto]. }
  destruct (extend_heap_pending _ _ _ _ _ Hok Hn Hnm Hgrow)
    as (s3 & E & Hpf & Hb3 & _).
  destruct (handle_free_ok _ _ _ _ _ Hpf) as (Hok' & Hroot & _).
  pose proof (handle_free_returns _ _ _ _ _ Hpf) as Hret.
  pose proof (same_region_handle_free (mem_brk s) s3) as (_ & Hb & _).
  subst r s'. rewrite E. split; [exact Hok'|]. split; [exact Hret|].
  split; [exact Hroot|]. rewrite Hb. exact Hb3.
Qed.

Lemma extend_heap_coalesces_witness :
  let s := heap_after [Malloc 8] in
  let w := [(4112, 16, 1); (4128, 4080, 0)] in
  let r := fst (extend_heap (4096 / WSIZE) s) in
  let s' := snd (extend_heap (4096 / WSIZE) s) in
  heap_ok s' (coalesce w (mem_brk s) 4096 []) /\
  r = (if is_free (last w sentinel) then blk_bp (last w sentinel)
       else mem_brk s) /\
  FREE_LIST_ROOT s' = r /\
  mem_brk s' = mem_brk s + 4096.
Proof.
  intros s w.
  apply (extend_heap_coalesces s w 4096).
  - check_heap. right. exists 4080. right. left. reflexivity.
  - unfold DSIZE. lia.
  - reflexivity.
  - vm_compute. discriminate.
Defined.

(** X12.  Stepping between neighbouring blocks is a round trip: for every
    block of a well-formed heap, [NEXT_BLKP] adds the size in its header,
    [PREV_BLKP] of the next block is the block again, and [NEXT_BLKP] of
    the previous block (the prologue, for the first block) is the block
    again. *)
Theorem block_navigation_roundtrip : forall s w1 bp size a w2,
  heap_ok s (w1 ++ (bp, size, a) :: w2) ->
  NEXT_BLKP s bp = bp + size /\
  PREV_BLKP s (NEXT_BLKP s bp) = bp /\
  NEXT_BLKP s (PREV_BLKP s bp) = bp.
Proof.
  intros s w1 bp size a w2 [[Hl1 Hl2] [Hm1 Hm2] Hpro Hblk Hepi Hroot].
  apply blocks_at_app in Hblk. destruct Hblk as (mid & Hbef & Hblk).
  cbn in Hblk. destruct Hblk as (<- & Hb & Haft).
  pose proof (blocks_at_le _ _ _ _ Hbef) as Hle1.
  pose proof (blocks_at_le _ _ _ _ Haft) as Hle2.
  destruct (prev_tag s w1 bp Hl1 Hpro Hbef)
    as (pb & ps & pa & Hf & Hh & Hsum & Hps & Hpm & Hpa & Hplo & _).
  destruct Hb as (H1 & H2 & H3 & H4 & H5 & H6). unfold_macros.
  destruct (tag_decode s (bp - 4) size a) as [G _]; auto; try lia.
  destruct (tag_decode s (bp + size - 8) size a) as [Gf _]; auto; try lia.
  destruct (tag_decode s (bp - 8) ps pa) as [Gp _]; auto; try lia.
  destruct (tag_decode s (pb - 4) ps pa) as [Gh _]; auto; try lia.
  unfold NEXT_BLKP, PREV_BLKP, WSIZE, DSIZE. rewrite G.
  split; [reflexivity|]. split.
  - replace (bp + size - 8) with (bp + size - 8) by lia. rewrite Gf. lia.
  - rewrite Gp. replace (bp - ps) with pb by lia. rewrite Gh. lia.
Qed.

Lemma block_navigation_roundtrip_witness :
  let s := heap_after [Malloc 8; Malloc 24; Malloc 8] in
  NEXT_BLKP s 4128 = 4128 + 32 /\
  PREV_BLKP s (NEXT_BLKP s 4128) = 4128 /\
  NEXT_BLKP s (PREV_BLKP s 4128) = 4128.
Proof.
  intros s.
  apply (block_navigation_roundtrip s [(4112, 16, 1)] 4128 32 1
           [(4160, 16, 1); (4176, 4032, 0)]).
  check_heap. right. exists 4032. right. right. right. left. reflexivity.
Defined.

End Reachable.

